(** * github-comment: the append / resolve / merge / retry engine

    A shallow embedding of the GitHub action that appends a status message
    to the [pr_comments] table, reads back the latest message of every
    producer for the same pull request and commit, renders them as one
    document and writes that document into a single pull-request comment.

    The source-key aware variant of [processWithRetry] (with [generateSource])
    is embedded at top level; the older single-writer variant of [index.js]
    lives in [Module Legacy].

    The JavaScript code is effectful: it talks to a PostgreSQL session, to the
    GitHub REST API and to the action log.  All of this is modelled by
    explicit state passing over a [World], in a small state-and-exception
    monad [M] that has the shape of JavaScript's completion records
    (normal completion or [throw]). *)

From Stdlib Require Import ZArith String Ascii.
From stdpp Require Import base list strings sorting gmap pretty.

Open Scope Z_scope.

(** ** JavaScript values and error objects *)

(** The few JavaScript values that the controller inspects on an error
    object: a missing property, a number, or a string. *)
Inductive jsval :=
  | JUndefined
  | JNum (n : Z)
  | JStr (s : string).

(** ToBoolean. *)
Definition truthy (v : jsval) : bool :=
  match v with
  | JUndefined => false
  | JNum n => negb (n =? 0)
  | JStr s => negb (String.eqb s "")
  end.

(** ToString, as used by template literals. *)
Definition js_to_string (v : jsval) : string :=
  match v with
  | JUndefined => "undefined"
  | JNum n => pretty n
  | JStr s => s
  end.

(** An error object, with the properties [processWithRetry] reads. *)
Record js_error := mk_js_error {
  e_message : string;
  e_stack : jsval;
  e_status : jsval;
  e_code : jsval;
  e_position : jsval;
  e_detail : jsval;
  e_hint : jsval
}.

(** [new Error(msg)]. *)
Definition new_Error (msg : string) : js_error :=
  {| e_message := msg; e_stack := JStr ("Error: " +:+ msg);
     e_status := JUndefined; e_code := JUndefined; e_position := JUndefined;
     e_detail := JUndefined; e_hint := JUndefined |}.

(** ** Strings *)

Definition nl : string := String (ascii_of_nat 10) "".

(** [Array.prototype.join]. *)
Definition join (sep : string) (l : list string) : string := String.concat sep l.

(** [String.prototype.includes]. *)
Fixpoint includes (s sub : string) : bool :=
  String.prefix sub s ||
  match s with
  | EmptyString => false
  | String _ s' => includes s' sub
  end.

(** The default comparison of [Array.prototype.sort]: strings are compared
    code unit by code unit. *)
Definition string_le (a b : string) : Prop := String.leb a b = true.

#[global] Instance string_le_dec : RelDecision string_le :=
  λ a b, decide (String.leb a b = true).

(** [Array.prototype.sort] without a comparator, on an array of strings. *)
Definition sort (l : list string) : list string := merge_sort string_le l.

(** [s.replace(c, by)] for a one-character pattern: the first occurrence only. *)
Fixpoint replace_first (c : ascii) (by_ : string) (s : string) : string :=
  match s with
  | EmptyString => EmptyString
  | String a s' => if Ascii.eqb a c then by_ +:+ s' else String a (replace_first c by_ s')
  end.

Definition is_digit (a : ascii) : bool :=
  let n := nat_of_ascii a in (48 <=? n)%nat && (n <=? 57)%nat.

(** Does the whole string match [\.\d{3}Z]? *)
Definition is_millis_suffix (s : string) : bool :=
  match s with
  | String dot (String d1 (String d2 (String d3 (String z EmptyString)))) =>
      Ascii.eqb dot "." && is_digit d1 && is_digit d2 && is_digit d3 && Ascii.eqb z "Z"
  | _ => false
  end.

(** [s.replace(/\.\d{3}Z$/, by)]. *)
Fixpoint replace_millis_suffix (by_ : string) (s : string) : string :=
  if is_millis_suffix s then by_
  else match s with
       | EmptyString => EmptyString
       | String a s' => String a (replace_millis_suffix by_ s')
       end.

(** ** The JavaScript runtime

    [JSON.parse], [Object.entries], the string conversion of a parsed JSON
    value and [Date.prototype.toISOString] are built-ins of the runtime, not
    code of the action; the development is parametric in them.  A call that
    throws returns the message of the exception on the left. *)
Class JSRuntime := {
  JSValue : Type;
  JSON_parse : string → string + JSValue;
  Object_entries : JSValue → string + list (string * JSValue);
  ToString : JSValue → string;
  Date_toISOString : Z → string
}.

(** ** The store, the pull request and the action log *)

(** A row of [pr_comments]. *)
Record Row := mk_Row {
  id : Z;
  pr_number : Z;
  commit_sha : string;
  message : string;
  created_at : Z;
  source : string;
  run_id : Z;
  run_attempt : Z
}.

(** An issue comment, as [listComments] reports it. *)
Record Comment := mk_Comment {
  comment_id : Z;
  user_type : string;
  body : string
}.

(** The SQL statements the action sends. *)
Inductive Sql :=
  | BEGIN
  | INSERT (prNumber : Z) (commitSha message source : string) (runId runAttempt : Z)
  | SELECT_latest_runs (prNumber : Z) (commitSha : string)
  | COMMIT
  | ROLLBACK.

(** Everything the action does to the outside, in the order it does it. *)
Inductive Event :=
  | EvConnect
  | EvQuery (q : Sql)
  | EvEnd
  | EvListComments (issue_number : Z)
  | EvUpdateComment (comment_id : Z) (body : string)
  | EvCreateComment (issue_number : Z) (body : string)
  | EvSleep (ms : Z)
  | EvInfo (msg : string)
  | EvWarning (msg : string)
  | EvError (msg : string + js_error)
  | EvConsoleLog (msg : string).

(** What the environment does at one external call: rows that other writers
    committed in the meantime, and whether the call itself fails. *)
Record Step := mk_Step {
  arrivals : list Row;
  fault : option js_error
}.

Definition quiet : Step := {| arrivals := []; fault := None |}.
Definition failing (e : js_error) : Step := {| arrivals := []; fault := Some e |}.

(** An open transaction of the session: its start time and the rows it
    inserted. *)
Record Tx := mk_Tx {
  tx_start : Z;
  tx_rows : list Row
}.

Record World := mk_World {
  table : list Row;            (* committed rows of pr_comments *)
  tx : option Tx;              (* the open transaction of our session *)
  now : Z;                     (* server clock *)
  next_id : Z;                 (* the serial of pr_comments.id *)
  comments : list Comment;     (* the comments of the pull request *)
  next_comment : Z;
  actor_type : string;         (* user.type of the token's identity *)
  plan : list Step;            (* what the environment does, call by call *)
  trace : list Event           (* latest event first *)
}.

Definition set_table (f : list Row → list Row) (w : World) : World :=
  mk_World (f (table w)) (tx w) (now w) (next_id w) (comments w) (next_comment w)
           (actor_type w) (plan w) (trace w).
Definition set_tx (t : option Tx) (w : World) : World :=
  mk_World (table w) t (now w) (next_id w) (comments w) (next_comment w)
           (actor_type w) (plan w) (trace w).
Definition set_now (f : Z → Z) (w : World) : World :=
  mk_World (table w) (tx w) (f (now w)) (next_id w) (comments w) (next_comment w)
           (actor_type w) (plan w) (trace w).
Definition set_next_id (n : Z) (w : World) : World :=
  mk_World (table w) (tx w) (now w) n (comments w) (next_comment w)
           (actor_type w) (plan w) (trace w).
Definition set_comments (cs : list Comment) (n : Z) (w : World) : World :=
  mk_World (table w) (tx w) (now w) (next_id w) cs n
           (actor_type w) (plan w) (trace w).
Definition set_plan (p : list Step) (w : World) : World :=
  mk_World (table w) (tx w) (now w) (next_id w) (comments w) (next_comment w)
           (actor_type w) p (trace w).
Definition emit (ev : Event) (w : World) : World :=
  mk_World (table w) (tx w) (now w) (next_id w) (comments w) (next_comment w)
           (actor_type w) (plan w) (ev :: trace w).

(** ** Completions: the monad of the embedding *)

Inductive outcome (A : Type) :=
  | Ret (a : A)
  | Throw (e : js_error).
Arguments Ret {A} a.
Arguments Throw {A} e.

Definition M (A : Type) : Type := World → outcome A * World.

Definition ret {A} (a : A) : M A := λ w, (Ret a, w).
Definition throw {A} (e : js_error) : M A := λ w, (Throw e, w).
Definition bind {A B} (m : M A) (k : A → M B) : M B := λ w,
  match m w with
  | (Ret a, w') => k a w'
  | (Throw e, w') => (Throw e, w')
  end.

Declare Scope js_scope.
Delimit Scope js_scope with js.
Notation "'let*' x := m 'in' k" := (bind m (λ x, k))
  (at level 10, x name, m at level 99, k at level 200) : js_scope.
Notation "m ;; k" := (bind m (λ _, k))
  (at level 100, right associativity) : js_scope.
Open Scope js_scope.

(** [try { m } catch (error) { h error }] *)
Definition try_catch {A} (m : M A) (h : js_error → M A) : M A := λ w,
  match m w with
  | (Ret a, w') => (Ret a, w')
  | (Throw e, w') => h e w'
  end.

(** [try { m } finally { c }]: [c] runs on every completion of [m], and a
    throw of [c] replaces that completion. *)
Definition try_finally {A} (m : M A) (c : M unit) : M A := λ w,
  match m w with
  | (r, w') =>
      match c w' with
      | (Ret _, w'') => (r, w'')
      | (Throw e, w'') => (Throw e, w'')
      end
  end.

(** [if (c) { m }] *)
Definition when (c : bool) (m : M unit) : M unit := if c then m else ret tt.

(** The step of the environment at an external call: the rows of other
    writers arrive, the clock advances and the call is recorded. *)
Definition env_step (ev : Event) (w : World) : World :=
  emit ev (set_now (Z.add 1)
             (set_table (λ t, t ++ arrivals (hd quiet (plan w)))
                (set_plan (tl (plan w)) w))).

(** An external call: after the step of the environment it either fails
    with the planned error or has its effect [sem]. *)
Definition call {A} (ev : Event) (sem : World → A * World) : M A := λ w,
  match fault (hd quiet (plan w)) with
  | Some e => (Throw e, env_step ev w)
  | None => let (a, w') := sem (env_step ev w) in (Ret a, w')
  end.

(** The action log ([@actions/core]). *)
Definition core_info (msg : string) : M unit := λ w, (Ret tt, emit (EvInfo msg) w).
Definition core_warning (msg : string) : M unit := λ w, (Ret tt, emit (EvWarning msg) w).
Definition core_error (msg : string + js_error) : M unit := λ w, (Ret tt, emit (EvError msg) w).

(** [error.stack || error] *)
Definition stack_or_error (error : js_error) : string + js_error :=
  if truthy (e_stack error) then inl (js_to_string (e_stack error)) else inr error.

(** [sleep(ms)] *)
Definition sleep (ms : Z) : M unit := λ w, (Ret tt, emit (EvSleep ms) (set_now (Z.add ms) w)).

(** [throw] the exception of a runtime built-in. *)
Definition lift {A} (r : string + A) : M A :=
  match r with
  | inl msg => throw (new_Error msg)
  | inr a => ret a
  end.

(** ** Constants *)

Definition MAX_RETRIES : Z := 3.
Definition RETRY_DELAY : Z := 1000.

(** PostgreSQL error codes that indicate concurrency issues. *)
Definition RETRY_ERROR_CODES : gset string :=
  {[ "55P03";   (* Lock timeout *)
     "40P01";   (* Deadlock detected *)
     "57014" ]} (* Statement timeout *).

(** [RETRY_ERROR_CODES.has(v)]: only a string can be equal to a member. *)
Definition RETRY_ERROR_CODES_has (v : jsval) : bool :=
  match v with
  | JStr s => bool_decide (s ∈ RETRY_ERROR_CODES)
  | _ => false
  end.

(** ** The inputs of the action *)

Record Context := mk_Context {
  workflow : string;
  job : string;
  pull_request_number : Z;     (* context.payload.pull_request.number *)
  pull_request_head_sha : string;
  runId : Z
}.

Record Params := mk_Params {
  context : Context;
  params_message : string;
  matrix : string;             (* core.getInput('matrix'): empty when absent *)
  GITHUB_RUN_ATTEMPT : Z       (* parseInt(process.env.GITHUB_RUN_ATTEMPT, 10) *)
}.

(** ** Source Key Generator *)

Definition generateSource `{JSRuntime} (context : Context) (matrixInput : string) : M string :=
  let workflow := workflow context in
  let job := job context in
  let* matrixParams :=
    if negb (String.eqb matrixInput "") then
      try_catch
        (let* matrix := lift (JSON_parse matrixInput) in
         let* entries := lift (Object_entries matrix) in
         ret (join ","
                (sort (map (λ kv, fst kv +:+ "=" +:+ ToString (snd kv)) entries))))
        (λ error,
           core_warning ("Failed to parse matrix input: " +:+ e_message error);;
           ret "")
    else ret "" in
  ret (if negb (String.eqb matrixParams "")
       then workflow +:+ "/" +:+ job +:+ "(" +:+ matrixParams +:+ ")"
       else workflow +:+ "/" +:+ job).

(** ** The resolve query

    [SELECT DISTINCT ON (source) ... WHERE pr_number = $1 AND commit_sha = $2
     ORDER BY source, run_id DESC, run_attempt DESC], then
    [ORDER BY created_at ASC]. *)

(** [ORDER BY source, run_id DESC, run_attempt DESC] *)
Definition latest_first (r1 r2 : Row) : bool :=
  match String.compare (source r1) (source r2) with
  | Lt => true
  | Gt => false
  | Eq =>
      match run_id r2 ?= run_id r1 with
      | Lt => true
      | Gt => false
      | Eq => run_attempt r2 <=? run_attempt r1
      end
  end.

Definition by_latest (r1 r2 : Row) : Prop := latest_first r1 r2 = true.
Definition by_created_at (r1 r2 : Row) : Prop := created_at r1 ≤ created_at r2.

#[global] Instance by_latest_dec : RelDecision by_latest :=
  λ r1 r2, decide (latest_first r1 r2 = true).
#[global] Instance by_created_at_dec : RelDecision by_created_at :=
  λ r1 r2, decide (created_at r1 ≤ created_at r2).

(** [DISTINCT ON (source)] over sorted rows: the first row of every run of
    rows with the same [source] is kept. [prev] is the [source] of the
    row before. *)
Fixpoint distinct_on_source (prev : option string) (rows : list Row) : list Row :=
  match rows with
  | [] => []
  | r :: rows' =>
      if decide (prev = Some (source r))
      then distinct_on_source prev rows'
      else r :: distinct_on_source (Some (source r)) rows'
  end.

Definition where_pr_commit (prNumber : Z) (commitSha : string) (r : Row) : Prop :=
  pr_number r = prNumber ∧ commit_sha r = commitSha.

#[global] Instance where_pr_commit_dec prNumber commitSha r :
  Decision (where_pr_commit prNumber commitSha r).
Proof. unfold where_pr_commit. apply _. Defined.

Definition latest_runs (prNumber : Z) (commitSha : string) (rows : list Row) : list Row :=
  distinct_on_source None
    (merge_sort by_latest (filter (where_pr_commit prNumber commitSha) rows)).

Definition select_latest_runs (prNumber : Z) (commitSha : string) (rows : list Row)
  : list Row :=
  merge_sort by_created_at (latest_runs prNumber commitSha rows).

(** ** The PostgreSQL session ([pg.Client]) *)

(** The rows a statement of our session sees: what is committed, and what
    our own open transaction inserted. *)
Definition visible (w : World) : list Row :=
  table w ++ from_option tx_rows [] (tx w).

Definition sql_effect (q : Sql) (w : World) : list Row * World :=
  match q with
  | BEGIN => ([], set_tx (Some {| tx_start := now w; tx_rows := [] |}) w)
  | INSERT prNumber commitSha message source runId runAttempt =>
      let new_row created :=
        {| id := next_id w; pr_number := prNumber; commit_sha := commitSha;
           message := message; created_at := created; source := source;
           run_id := runId; run_attempt := runAttempt |} in
      let w' := set_next_id (next_id w + 1) w in
      match tx w with
      | Some t =>
          ([], set_tx (Some {| tx_start := tx_start t;
                               tx_rows := tx_rows t ++ [new_row (tx_start t)] |}) w')
      | None => ([], set_table (λ t, t ++ [new_row (now w)]) w')
      end
  | SELECT_latest_runs prNumber commitSha =>
      (select_latest_runs prNumber commitSha (visible w), w)
  | COMMIT =>
      ([], set_tx None (set_table (λ t, t ++ from_option tx_rows [] (tx w)) w))
  | ROLLBACK => ([], set_tx None w)
  end.

(** Whether the driver accepts a call (a second [connect] on the same
    client, a second [end]) is decided by the plan of the environment. *)
Definition client_connect : M unit := call EvConnect (λ w, (tt, w)).
Definition client_query (q : Sql) : M (list Row) := call (EvQuery q) (sql_effect q).
(** Closing the session aborts the transaction that is still open. *)
Definition client_end : M unit := call EvEnd (λ w, (tt, set_tx None w)).

(** What [pg] answers to [connect()] on a client that was connected before:
    an [Error] without [code]. *)
Definition reuse_error : js_error :=
  new_Error "Client has already been connected. You cannot reuse a client.".

(** The next call, a [connect()], is refused by the driver. *)
Definition refuses_reconnect (w : World) : Prop :=
  fault (hd quiet (plan w)) = Some reuse_error.

(** ** The GitHub REST client *)

Definition listComments (issue_number : Z) (per_page : nat) : M (list Comment) :=
  call (EvListComments issue_number) (λ w, (take per_page (comments w), w)).

Definition updateComment (id : Z) (new_body : string) : M unit :=
  call (EvUpdateComment id new_body)
    (λ w, (tt, set_comments
                 (map (λ c, if decide (comment_id c = id)
                            then {| comment_id := id; user_type := user_type c;
                                    body := new_body |}
                            else c) (comments w))
                 (next_comment w) w)).

Definition createComment (issue_number : Z) (new_body : string) : M unit :=
  call (EvCreateComment issue_number new_body)
    (λ w, (tt, set_comments
                 (comments w ++ [{| comment_id := next_comment w;
                                    user_type := actor_type w; body := new_body |}])
                 (next_comment w + 1) w)).

(** ** Merge Renderer *)

Definition render_section `{JSRuntime} (n : Row) : string :=
  let timestamp :=
    replace_millis_suffix " UTC"
      (replace_first "T" " " (Date_toISOString (created_at n))) in
  join nl
    [ "<details>";
      "<summary>Message from " +:+ timestamp +:+ " (" +:+ source n +:+ ")</summary>";
      "";
      "Run ID: " +:+ pretty (run_id n) +:+ ", Attempt: " +:+ pretty (run_attempt n);
      "";
      message n;
      "</details>" ].

Definition render `{JSRuntime} (commitSha : string) (comments : list Row) : string :=
  join nl
    [ "### Automated Workflow Results for commit " +:+ commitSha;
      "";
      join (nl +:+ nl) (map render_section comments) ].

(** ** One attempt *)

(** The comment the action takes for its own: the predicate of
    [prComments.data.find]. *)
Definition is_bot_comment (comment : Comment) : bool :=
  String.eqb (user_type comment) "Bot" &&
  includes (body comment) "Automated Workflow Results for commit".

(** [BEGIN], the [INSERT] of the new message and the query of the latest
    message of every source. *)
Definition append_resolve (p : Params) (source : string) : M (list Row) :=
  let prNumber := pull_request_number (context p) in
  let commitSha := pull_request_head_sha (context p) in
  client_query BEGIN;;
  client_query (INSERT prNumber commitSha (params_message p) source
                       (runId (context p)) (GITHUB_RUN_ATTEMPT p));;
  client_query (SELECT_latest_runs prNumber commitSha).

(** Find the existing comment and update it, or create one. *)
Definition external_sync (p : Params) (combinedMessage : string) : M unit :=
  let prNumber := pull_request_number (context p) in
  let* prComments := listComments prNumber 100 in
  let botComment := List.find is_bot_comment prComments in
  try_catch
    (match botComment with
     | Some c => updateComment (comment_id c) combinedMessage
     | None => createComment prNumber combinedMessage
     end)
    (λ error,
       core_error (inl "GitHub API error:");;
       core_error (inl ("Status: " +:+ (if truthy (e_status error)
                                         then js_to_string (e_status error)
                                         else "unknown")));;
       core_error (inl ("Message: " +:+ e_message error));;
       core_error (stack_or_error error);;
       throw error).

(** The body of the inner [try]; its normal completion is the [return] of
    [processWithRetry]. *)
Definition transaction `{JSRuntime} (p : Params) (source : string) : M unit :=
  let commitSha := pull_request_head_sha (context p) in
  let* comments := append_resolve p source in
  let combinedMessage := render commitSha comments in
  external_sync p combinedMessage;;
  client_query COMMIT;;
  client_end (* Close the connection *).

(** The inner [try ... catch ... finally]. *)
Definition session `{JSRuntime} (p : Params) (source : string) : M unit :=
  try_finally
    (try_catch (transaction p source)
       (λ error, client_query ROLLBACK;; throw error))
    client_end (* Make sure we always close the connection *).

(** The body of the outer [try]. *)
Definition attempt_once `{JSRuntime} (p : Params) (source : string) : M unit :=
  client_connect;;
  session p source.

(** ** Retry/Backoff Controller *)

(** The last statements of the outer [catch]: report and fail. *)
Definition fail_database_error (error : js_error) : M unit :=
  core_error (inl "Database error:");;
  core_error (stack_or_error error);;
  when (truthy (e_code error))
    (core_error (inl ("PostgreSQL Error Code: " +:+ js_to_string (e_code error))));;
  when (truthy (e_position error))
    (core_error (inl ("Error Position: " +:+ js_to_string (e_position error))));;
  when (truthy (e_detail error))
    (core_error (inl ("Error Detail: " +:+ js_to_string (e_detail error))));;
  when (truthy (e_hint error))
    (core_error (inl ("Error Hint: " +:+ js_to_string (e_hint error))));;
  throw error.

(** The outer [catch (error)]. Its normal completion is the [continue] of
    the loop. *)
Definition on_error (attempt : Z) (error : js_error) : M unit :=
  (* Check if it's a GitHub API error *)
  if truthy (e_status error) then
    core_error (inl "GitHub API error:");;
    core_error (inl ("Status: " +:+ js_to_string (e_status error)));;
    core_error (inl ("Message: " +:+ e_message error));;
    core_error (stack_or_error error);;
    throw error
  (* Handle database errors *)
  else if RETRY_ERROR_CODES_has (e_code error) then
    let isLastAttempt := attempt =? MAX_RETRIES in
    core_info (e_message error +:+ ", " +:+
               (if isLastAttempt then "no more retries" else "will retry") +:+ "...");;
    if negb isLastAttempt then
      core_info ("Attempt " +:+ pretty attempt +:+ " failed, retrying in " +:+
                 pretty (RETRY_DELAY * attempt) +:+ "ms...");;
      sleep (RETRY_DELAY * attempt)
    else fail_database_error error
  else fail_database_error error.

(** The condition under which the controller treats an error as a
    transient conflict: both tests of [on_error]. *)
Definition transient_conflict (error : js_error) : bool :=
  negb (truthy (e_status error)) && RETRY_ERROR_CODES_has (e_code error).

(** [for (let attempt = 1; attempt <= MAX_RETRIES; attempt++)], entered
    with [remaining = MAX_RETRIES + 1 - attempt] iterations to go; the
    statement after the loop is the case [remaining = 0]. *)
Fixpoint retry_loop `{JSRuntime} (p : Params) (source : string)
    (remaining : nat) (attempt : Z) : M unit :=
  match remaining with
  | O =>
      (* If we get here, all retries failed *)
      throw (new_Error ("Failed after " +:+ pretty MAX_RETRIES +:+ " attempts"))
  | S remaining' =>
      try_catch (attempt_once p source)
        (λ error,
           on_error attempt error;;
           retry_loop p source remaining' (attempt + 1))
  end.

Definition processWithRetry `{JSRuntime} (p : Params) : M unit :=
  let* source := generateSource (context p) (matrix p) in
  retry_loop p source (Z.to_nat MAX_RETRIES) 1.

(** The function from its first line.  [new Client(...)] parses the
    connection string and throws when it cannot; [new_Client] is what the
    constructor does with the input [neon-db-url], the message of the
    exception on the left.  [context.payload.pull_request] is undefined when the workflow was
    not started by an event of a pull request; the function reads its fields
    before it generates the source key and before the loop, and that is a
    [TypeError] then.  With a client and a pull request it goes on as
    [processWithRetry] above. *)
Record EventContext := mk_EventContext {
  event_workflow : string;
  event_job : string;
  event_pull_request : option (Z * string);
  event_runId : Z
}.

Definition processWithRetry_of_event `{JSRuntime}
    (new_Client : string + unit) (ec : EventContext)
    (message matrix : string) (run_attempt : Z) : M unit :=
  lift new_Client;;
  match event_pull_request ec with
  | None => throw (new_Error "Cannot read properties of undefined (reading 'number')")
  | Some (number, sha) =>
      processWithRetry
        {| context := {| workflow := event_workflow ec; job := event_job ec;
                         pull_request_number := number;
                         pull_request_head_sha := sha;
                         runId := event_runId ec |};
           params_message := message; matrix := matrix;
           GITHUB_RUN_ATTEMPT := run_attempt |}
  end.

(** ** The single-writer variant ([index.js])

    The older variant has no source key and no commit: every message of the
    pull request is shown, and one comment per pull request is kept.  Its
    transaction runs inside [sql.transaction] of the serverless driver, which
    is a parameter here; its retry controller is embedded in full. *)
Module Legacy.

Definition console_log (msg : string) : M unit :=
  λ w, (Ret tt, emit (EvConsoleLog msg) w).

(** The predicate of [prComments.data.find]. *)
Definition is_bot_comment (comment : Comment) : bool :=
  String.eqb (user_type comment) "Bot" &&
  includes (body comment) "Automated Workflow Results".

(** [SELECT message, id, created_at FROM pr_comments WHERE pr_number = $1
     ORDER BY created_at ASC] *)
Definition select_messages (prNumber : Z) (rows : list Row) : list Row :=
  merge_sort by_created_at (filter (λ r, pr_number r = prNumber) rows).

(** [error.code === c] *)
Definition code_is (error : js_error) (c : string) : bool :=
  match e_code error with
  | JStr s => String.eqb s c
  | _ => false
  end.

Section controller.
(** [await sql.transaction(async (tx) => { ... }, { ... })] *)
Variable sql_transaction : M unit.

(** [processWithRetry(params, attempt)], entered with
    [budget = MAX_RETRIES - attempt] recursive calls to go: the test
    [attempt < MAX_RETRIES] is the test [budget > 0]. *)
Fixpoint processWithRetry_from (budget : nat) (attempt : Z) : M unit :=
  try_catch sql_transaction
    (λ error,
       (if code_is error "55P03" then console_log "Lock timeout, will retry..."
        else if code_is error "40P01" then console_log "Deadlock detected, will retry..."
        else if code_is error "57014" then console_log "Statement timeout, will retry..."
        else ret tt);;
       match budget with
       | S budget' =>
           console_log ("Attempt " +:+ pretty attempt +:+ " failed, retrying...");;
           sleep (RETRY_DELAY * attempt);;
           processWithRetry_from budget' (attempt + 1)
       | O => throw error
       end).

Definition processWithRetry (attempt : Z) : M unit :=
  processWithRetry_from (Z.to_nat (MAX_RETRIES - attempt)) attempt.
End controller.

End Legacy.

(** ** Observations on a trace *)

Definition is_connect (ev : Event) : bool :=
  match ev with EvConnect => true | _ => false end.
Definition is_end (ev : Event) : bool :=
  match ev with EvEnd => true | _ => false end.
Definition is_sleep (ev : Event) : bool :=
  match ev with EvSleep _ => true | _ => false end.
Definition is_commit (ev : Event) : bool :=
  match ev with EvQuery COMMIT => true | _ => false end.
Definition is_sync_call (ev : Event) : bool :=
  match ev with
  | EvListComments _ | EvUpdateComment _ _ | EvCreateComment _ _ => true
  | _ => false
  end.

Definition is_log (ev : Event) : bool :=
  match ev with
  | EvInfo _ | EvWarning _ | EvError _ | EvConsoleLog _ => true
  | _ => false
  end.

Definition count (P : Event → bool) (t : list Event) : nat := length (filter P t).

(** The calls to the store, to GitHub and to the timer, oldest first. *)
Definition external_calls (t : list Event) : list Event :=
  reverse (filter (λ ev, negb (is_log ev)) t).

(** ** A small runtime and sample inputs

    A runtime that knows two matrix texts, and the inputs used by the
    examples below. *)
Module Demo.

#[warnings="-register-all"]
Inductive json :=
  | JsonNull
  | JsonNumber (n : Z)
  | JsonString (s : string)
  | JsonObject (members : list (string * json)).

Definition dq : string := String (ascii_of_nat 34) "".

(** The text of [{"b":2,"a":1}] and of [{"a":1,"b":2}]. *)
Definition matrix_ba : string :=
  "{" +:+ dq +:+ "b" +:+ dq +:+ ":2," +:+ dq +:+ "a" +:+ dq +:+ ":1}".
Definition matrix_ab : string :=
  "{" +:+ dq +:+ "a" +:+ dq +:+ ":1," +:+ dq +:+ "b" +:+ dq +:+ ":2}".

Definition parse (s : string) : string + json :=
  if decide (s = matrix_ba)
  then inr (JsonObject [("b", JsonNumber 2); ("a", JsonNumber 1)])
  else if decide (s = matrix_ab)
  then inr (JsonObject [("a", JsonNumber 1); ("b", JsonNumber 2)])
  else if decide (s = "null") then inr JsonNull
  else inl ("Unexpected token in JSON at position 0").

Definition entries (v : json) : string + list (string * json) :=
  match v with
  | JsonNull => inl "Cannot convert undefined or null to object"
  | JsonObject members => inr members
  | JsonNumber _ => inr []
  | JsonString s =>
      inr (imap (λ i c, (pretty i, JsonString (String c ""))) (list_ascii_of_string s))
  end.

Definition to_string (v : json) : string :=
  match v with
  | JsonNull => "null"
  | JsonNumber n => pretty n
  | JsonString s => s
  | JsonObject _ => "[object Object]"
  end.

#[export] Instance runtime : JSRuntime := {|
  JSValue := json;
  JSON_parse := parse;
  Object_entries := entries;
  ToString := to_string;
  Date_toISOString := λ _, "2024-05-01T12:00:00.000Z"
|}.

Definition ctx : Context :=
  {| workflow := "ci"; job := "test"; pull_request_number := 7;
     pull_request_head_sha := "abc123"; runId := 10 |}.

Definition params : Params :=
  {| context := ctx; params_message := "build ok"; matrix := "";
     GITHUB_RUN_ATTEMPT := 1 |}.

(** An empty table, a pull request without comments, and an environment
    that does what [plan] says. *)
Definition world (plan : list Step) : World :=
  {| table := []; tx := None; now := 0; next_id := 1; comments := [];
     next_comment := 100; actor_type := "Bot"; plan := plan; trace := [] |}.

(** Rows that are already committed: two runs of [ci/test] on the commit
    (the older run was inserted later), one run of [ci/lint], and a row of
    another commit. *)
Definition stored : list Row :=
  [ mk_Row 1 7 "abc123" "lint ok" 50 "ci/lint" 9 1;
    mk_Row 2 7 "abc123" "rerun failed" 40 "ci/test" 9 2;
    mk_Row 3 7 "abc123" "first try" 60 "ci/test" 9 1;
    mk_Row 4 7 "fff000" "other commit" 10 "ci/test" 12 1 ].

Definition stored_world (plan : list Step) : World :=
  {| table := stored; tx := None; now := 100; next_id := 5; comments := [];
     next_comment := 100; actor_type := "Bot"; plan := plan; trace := [] |}.

Definition github_error (status : Z) : js_error :=
  {| e_message := "Server Error"; e_stack := JUndefined;
     e_status := JNum status; e_code := JUndefined; e_position := JUndefined;
     e_detail := JUndefined; e_hint := JUndefined |}.

Definition db_error (code : string) : js_error :=
  {| e_message := "canceling statement"; e_stack := JUndefined;
     e_status := JUndefined; e_code := JStr code; e_position := JUndefined;
     e_detail := JUndefined; e_hint := JUndefined |}.

(** The [INSERT] of the first attempt runs into a lock timeout, and the
    driver refuses to connect the client again: connect, BEGIN, INSERT,
    ROLLBACK, end, connect. *)
Definition lock_timeout_then_refused : list Step :=
  [ quiet; quiet; failing (db_error "55P03"); quiet; quiet; failing reuse_error ].

(** The pull request already has the comment of an earlier commit. *)
Definition comment_of_old_commit : Comment :=
  {| comment_id := 55; user_type := "Bot";
     body := "### Automated Workflow Results for commit 0ld5ha" +:+ nl +:+ nl +:+
             "<details>...</details>" |}.

Definition world_with_old_comment (plan : list Step) : World :=
  {| table := []; tx := None; now := 0; next_id := 1;
     comments := [comment_of_old_commit];
     next_comment := 100; actor_type := "Bot"; plan := plan; trace := [] |}.

(** The row that the example parameters append. *)
Definition appended (created : Z) : Row :=
  mk_Row 1 7 "abc123" "build ok" created "ci/test" 10 1.

(** Everything succeeds up to the listing of the comments, and the
    creation of the comment fails: BEGIN, INSERT, SELECT, listComments,
    createComment. *)
Definition sync_fails : list Step :=
  [ quiet; quiet; quiet; quiet; failing (github_error 500) ].

End Demo.

(** ** Notions of the specification *)

(** The key without matrix parameters. *)
Definition unsuffixed (ctx : Context) : string := workflow ctx +:+ "/" +:+ job ctx.

(** The order of supersession: [(run_id, run_attempt)], lexicographically. *)
Definition run_le (r r' : Row) : Prop :=
  run_id r < run_id r' ∨ (run_id r = run_id r' ∧ run_attempt r ≤ run_attempt r').

(** [m] takes every world to a world related to it by [R]. *)
Definition respects {A} (R : relation World) (m : M A) : Prop :=
  ∀ w, R w (snd (m w)).

(** As many events that satisfy [Q] after as before. *)
Definition same_count (Q : Event → bool) : relation World :=
  λ w w', count Q (trace w') = count Q (trace w).

(** Between [w] and [w'] the environment took some steps of the plan, and
    nothing but the rows of other writers was committed. *)
Definition others_committed : relation World :=
  λ w w', ∃ n, plan w' = drop n (plan w)
               ∧ table w' = table w ++ concat (arrivals <$> take n (plan w)).

(** The error that leaves the [try] statement of an attempt whose body threw
    [error] in [w]: the [catch] block sends [ROLLBACK] and throws [error]
    again, and the [finally] block closes the session.  An error of
    [end()] replaces the one that is in flight; so does an error of
    [ROLLBACK], which is thrown from the [catch] block before [error] is. *)
Definition rethrown (error : js_error) (w : World) : js_error :=
  match fault (hd quiet (tl (plan w))) with
  | Some error_of_end => error_of_end
  | None =>
      match fault (hd quiet (plan w)) with
      | Some error_of_rollback => error_of_rollback
      | None => error
      end
  end.

(** The errors that the collaborators of an attempt throw.  The errors of
    the PostgreSQL driver ([DatabaseError], with the SQLSTATE in [code]),
    of the network layer and of the language itself have no [status]; the
    errors of the GitHub client ([RequestError]) have the HTTP status in
    [status] and no text in [code]. *)
Definition raised_in_attempt (error : js_error) : Prop :=
  e_status error = JUndefined
  ∨ (truthy (e_status error) = true ∧ ∀ s, e_code error ≠ JStr s).

(** The codes of [RETRY_ERROR_CODES], as a property of an error. *)
Definition has_retry_code (error : js_error) : Prop :=
  e_code error = JStr "55P03" ∨ e_code error = JStr "40P01"
  ∨ e_code error = JStr "57014".

Definition is_info (ev : Event) : bool :=
  match ev with EvInfo _ => true | _ => false end.

(** ** The entry point of the action

    [run] reads the inputs of the action, calls [processWithRetry], and
    turns every error into a failed step.  The inputs come from
    [@actions/core] and the context from [@actions/github]; they are the
    fields of [Action].  [getInput name required] returns the message of the
    exception on the left when the toolkit throws (a required input that is
    not supplied). *)
Record Action := mk_Action {
  getInput : string → bool → string + string;
  github_context : Context;
  env_GITHUB_RUN_ATTEMPT : Z
}.

(** How the step ends: [core.setFailed] sets the exit code to failure. *)
Inductive exit_status := Succeeded | Failed.

(** [core.setFailed(message)]: the exit code becomes failure and the
    message is logged as an error. *)
Definition setFailed (msg : string) : M exit_status :=
  core_error (inl msg);; ret Failed.

Definition run `{JSRuntime} (a : Action) : M exit_status :=
  try_catch
    (let* message := lift (getInput a "message" true) in
     let* dbUrl := lift (getInput a "neon-db-url" true) in
     let* token := lift (getInput a "github-token" true) in
     let* matrix := lift (getInput a "matrix" false) in
     processWithRetry {| context := github_context a; params_message := message;
                         matrix := matrix;
                         GITHUB_RUN_ATTEMPT := env_GITHUB_RUN_ATTEMPT a |};;
     ret Succeeded)
    (λ error,
       core_error (inl "Action failed:");;
       core_error (stack_or_error error);;
       setFailed (e_message error)).

(** [run] of [index.js]. *)
Definition legacy_run (sql_transaction : M unit) (a : Action) : M exit_status :=
  try_catch
    (let* message := lift (getInput a "message" true) in
     let* dbUrl := lift (getInput a "neon-db-url" true) in
     let* token := lift (getInput a "github-token" true) in
     Legacy.processWithRetry sql_transaction 1;;
     ret Succeeded)
    (λ error, setFailed (e_message error)).

(** Between [w] and [w'] the environment took some steps of the plan, and
    besides the rows of other writers exactly the rows [own] were
    committed. *)
Definition committed (own : list Row) : relation World :=
  λ w w', ∃ n, plan w' = drop n (plan w)
               ∧ table w' ≡ₚ table w ++ concat (arrivals <$> take n (plan w)) ++ own.

(** The row that [processWithRetry] inserts for [p] and [src]. *)
Definition is_appended_row (p : Params) (src : string) (r : Row) : Prop :=
  pr_number r = pull_request_number (context p)
  ∧ commit_sha r = pull_request_head_sha (context p)
  ∧ message r = params_message p
  ∧ source r = src
  ∧ run_id r = runId (context p)
  ∧ run_attempt r = GITHUB_RUN_ATTEMPT p.

(** What a piece of [processWithRetry] that ended in [w'] has committed
    since [w]: nothing but rows of other writers and the rows [own], which
    are copies of the appended message, at most one for every [COMMIT] that
    was sent. *)
Definition commits_only (p : Params) (src : string) (own : list Row)
    (w w' : World) : Prop :=
  committed own w w'
  ∧ Forall (is_appended_row p src) own
  ∧ (count is_commit (trace w) + length own ≤ count is_commit (trace w'))%nat.

(** The comments that [external_sync] may take for its own: those of the
    first page. *)
Definition first_page (w : World) : list Comment := take 100 (comments w).

Definition is_list (ev : Event) : bool :=
  match ev with EvListComments _ => true | _ => false end.
Definition is_write (ev : Event) : bool :=
  match ev with EvUpdateComment _ _ | EvCreateComment _ _ => true | _ => false end.

(** What [updateComment id new_body] does to one comment. *)
Definition with_body (id : Z) (new_body : string) (c : Comment) : Comment :=
  if decide (comment_id c = id)
  then {| comment_id := id; user_type := user_type c; body := new_body |}
  else c.

(** The comment that [createComment] adds in [w]. *)
Definition created_comment (w : World) (new_body : string) : Comment :=
  {| comment_id := next_comment w; user_type := actor_type w; body := new_body |}.

(** [key=value], as [generateSource] writes an entry of the matrix. *)
Definition entry_text `{JSRuntime} (kv : string * JSValue) : string :=
  fst kv +:+ "=" +:+ ToString (snd kv).

(** The template literal [`${value}`] throws a [TypeError] for a value that
    cannot be converted to a primitive (an object whose [toString] and
    [valueOf] are not functions).  [template] is the conversion with this
    case, the message of the exception on the left; [ToString] is its text
    wherever it returns. *)
Class TemplateLiteral `{JSRuntime} := {
  template : JSValue → string + string;
  template_ToString : ∀ v s, template v = inr s → ToString v = s
}.

(** Texts of ASCII characters.  On these the order of bytes, [string_le],
    is the order of UTF-16 code units by which [Array.prototype.sort]
    compares strings. *)
Definition is_ascii_text (s : string) : bool :=
  forallb (λ c, bool_decide (nat_of_ascii c < 128)%nat) (list_ascii_of_string s).

(** In the call of [processWithRetry p] from [w], the driver refuses the
    [connect()] of the second attempt. *)
Definition driver_refuses_reconnect `{JSRuntime} (p : Params) (w : World) : Prop :=
  ∀ src w0 error w1 w2,
    generateSource (context p) (matrix p) w = (Ret src, w0) →
    attempt_once p src w0 = (Throw error, w1) →
    on_error 1 error w1 = (Ret tt, w2) →
    refuses_reconnect w2.

(** ** More sample inputs *)
Module Samples.

(** The runtime of [Demo], which also knows the empty object. *)
Definition parse (s : string) : string + Demo.json :=
  if decide (s = "{}") then inr (Demo.JsonObject []) else Demo.parse s.

#[export] Instance runtime : JSRuntime := {|
  JSValue := Demo.json;
  JSON_parse := parse;
  Object_entries := Demo.entries;
  ToString := Demo.to_string;
  Date_toISOString := λ _, "2024-05-01T12:00:00.000Z"
|}.

(** An object with a member [toString] has no text: the member is not a
    function. *)
Definition convert (v : Demo.json) : string + string :=
  match v with
  | Demo.JsonObject members =>
      if bool_decide ("toString" ∈ members.*1)
      then inl "Cannot convert object to primitive value"
      else inr (Demo.to_string v)
  | _ => inr (Demo.to_string v)
  end.

#[export] Instance template_literal : @TemplateLiteral Demo.runtime.
Proof.
  refine {| template := (convert : @JSValue Demo.runtime → string + string) |}.
  intros v s. destruct v as [| | |members]; simpl; try by intros [= <-].
  destruct (bool_decide _); [done|]. by intros [= <-].
Defined.

(** The event of a pull request, and an event without one. *)
Definition pull_request_event : EventContext :=
  {| event_workflow := "ci"; event_job := "test";
     event_pull_request := Some (7, "abc123"); event_runId := 10 |}.

Definition push_event : EventContext :=
  {| event_workflow := "ci"; event_job := "test";
     event_pull_request := None; event_runId := 10 |}.

(** The action with every input supplied, and without the message. *)
Definition action : Action :=
  {| getInput := λ name required,
       if decide (name = "matrix") then inr "" else inr ("value of " +:+ name);
     github_context := Demo.ctx;
     env_GITHUB_RUN_ATTEMPT := 1 |}.

Definition action_without_message : Action :=
  {| getInput := λ name required,
       if decide (name = "message")
       then inl "Input required and not supplied: message"
       else inr ("value of " +:+ name);
     github_context := Demo.ctx;
     env_GITHUB_RUN_ATTEMPT := 1 |}.

End Samples.

(** * Properties *)

(** ** The order on strings *)

Lemma string_compare_refl (s : string) : String.compare s s = Eq.
Proof.
  induction s as [|a s IH]; simpl; [done|].
  unfold Ascii.compare. by rewrite N.compare_refl.
Qed.

Lemma string_compare_lt_trans (a b c : string) :
  String.compare a b = Lt → String.compare b c = Lt → String.compare a c = Lt.
Proof.
  revert b c. induction a as [|x a IH]; intros [|y b] [|z c]; simpl; try done.
  unfold Ascii.compare.
  destruct (N.compare_spec (N_of_ascii x) (N_of_ascii y)) as [Hxy|Hxy|Hxy];
    destruct (N.compare_spec (N_of_ascii y) (N_of_ascii z)) as [Hyz|Hyz|Hyz];
    try done; intros Hab Hbc.
  - rewrite Hxy, Hyz, N.compare_refl. eauto.
  - rewrite Hxy. by apply N.compare_lt_iff in Hyz as ->.
  - rewrite <- Hyz. by apply N.compare_lt_iff in Hxy as ->.
  - assert (N_of_ascii x < N_of_ascii z)%N as Hxz by lia.
    by apply N.compare_lt_iff in Hxz as ->.
Qed.

Lemma string_compare_gt_lt (a b : string) :
  String.compare a b = Gt ↔ String.compare b a = Lt.
Proof.
  rewrite (String.compare_antisym a b).
  destruct (String.compare b a); simpl; split; congruence.
Qed.

#[global] Instance string_le_trans : Transitive string_le.
Proof.
  intros a b c. unfold string_le, String.leb.
  destruct (String.compare a b) eqn:Hab; [| |done].
  - by apply String.compare_eq_iff in Hab as ->.
  - intros _. destruct (String.compare b c) eqn:Hbc; [| |done].
    + apply String.compare_eq_iff in Hbc as <-. by rewrite Hab.
    + by rewrite (string_compare_lt_trans a b c).
Qed.

#[global] Instance string_le_total : Total string_le.
Proof. intros a b. apply String.leb_total. Qed.

#[global] Instance string_le_antisym : AntiSymm (=) string_le.
Proof. intros a b. apply String.leb_antisym. Qed.

(** [sort] yields the one sorted arrangement of its input. *)
Lemma sort_permutation (l1 l2 : list string) : l1 ≡ₚ l2 → sort l1 = sort l2.
Proof.
  intros Hperm. unfold sort.
  apply (Sorted_unique string_le); [apply Sorted_merge_sort, _..|].
  by rewrite !merge_sort_Permutation.
Qed.

(** ** Strings and the renderer on examples *)

Example includes_marker :
  includes ("### Automated Workflow Results for commit abc123" +:+ nl)
           "Automated Workflow Results for commit" = true
  ∧ includes "Automated Workflow Results" "Automated Workflow Results for commit" = false
  ∧ includes "anything" "" = true.
Proof. by vm_compute. Qed.

Example timestamp_example :
  replace_millis_suffix " UTC" (replace_first "T" " " "2024-05-01T12:00:00.000Z")
  = "2024-05-01 12:00:00 UTC"
  ∧ replace_millis_suffix " UTC" "2024-05-01 12:00:00.00Z" = "2024-05-01 12:00:00.00Z".
Proof. by vm_compute. Qed.

Example render_example :
  @render Demo.runtime "abc123" [Demo.appended 2]
  = "### Automated Workflow Results for commit abc123" +:+ nl +:+
    nl +:+
    "<details>" +:+ nl +:+
    "<summary>Message from 2024-05-01 12:00:00 UTC (ci/test)</summary>" +:+ nl +:+
    nl +:+
    "Run ID: 10, Attempt: 1" +:+ nl +:+
    nl +:+
    "build ok" +:+ nl +:+
    "</details>".
Proof. by vm_compute. Qed.

(** ** Source Key Generator *)

Lemma if_nonempty {A} (s : string) (a b : A) :
  s ≠ "" → (if negb (String.eqb s "") then a else b) = a.
Proof. intros Hs. by apply String.eqb_neq in Hs as ->. Qed.

(** C7. The source key does not depend on the order of the matrix entries:
    two matrix inputs whose parsed objects have the same key/value entries,
    in any order, give the same key (and the same log). *)
Theorem C7_source_key_order_independent `{JSRuntime}
    (ctx : Context) (input1 input2 : string) (v1 v2 : JSValue)
    (m1 m2 : list (string * JSValue)) (w : World) :
  input1 ≠ "" → input2 ≠ "" →
  JSON_parse input1 = inr v1 → Object_entries v1 = inr m1 →
  JSON_parse input2 = inr v2 → Object_entries v2 = inr m2 →
  m1 ≡ₚ m2 →
  generateSource ctx input1 w = generateSource ctx input2 w.
Proof.
  intros Hne1 Hne2 Hp1 He1 Hp2 He2 Hperm.
  unfold generateSource, bind, try_catch, lift.
  rewrite !if_nonempty by done.
  rewrite Hp1, Hp2. simpl. rewrite He1, He2. simpl.
  by rewrite (sort_permutation _ _ (fmap_Permutation _ _ _ Hperm)).
Qed.

(** The instance of the specification: [{b:2, a:1}] and [{a:1, b:2}]. *)
Lemma C7_source_key_order_independent_witness :
  @generateSource Demo.runtime Demo.ctx Demo.matrix_ba (Demo.world [])
  = @generateSource Demo.runtime Demo.ctx Demo.matrix_ab (Demo.world [])
  ∧ @generateSource Demo.runtime Demo.ctx Demo.matrix_ab (Demo.world [])
    = (Ret "ci/test(a=1,b=2)", Demo.world []).
Proof.
  split; [|reflexivity].
  apply (@C7_source_key_order_independent Demo.runtime Demo.ctx Demo.matrix_ba Demo.matrix_ab
           (Demo.JsonObject [("b", Demo.JsonNumber 2); ("a", Demo.JsonNumber 1)])
           (Demo.JsonObject [("a", Demo.JsonNumber 1); ("b", Demo.JsonNumber 2)])
           [("b", Demo.JsonNumber 2); ("a", Demo.JsonNumber 1)]
           [("a", Demo.JsonNumber 1); ("b", Demo.JsonNumber 2)]);
    [discriminate | discriminate | reflexivity | reflexivity | reflexivity
    | reflexivity | apply perm_swap].
Defined.

(** C8. The Source Key Generator never fails: on every input it completes
    normally with a key.  Without a matrix input the key is the unsuffixed
    one and nothing is logged; when the matrix input does not parse (or the
    parsed value has no entries to enumerate) one warning is logged and the
    key is the unsuffixed one. *)
Theorem C8_generateSource_never_fails `{JSRuntime}
    (ctx : Context) (input : string) (w : World) :
  (∃ key w', generateSource ctx input w = (Ret key, w'))
  ∧ (input = "" → generateSource ctx input w = (Ret (unsuffixed ctx), w))
  ∧ (∀ msg, input ≠ "" → JSON_parse input = inl msg →
       generateSource ctx input w
       = (Ret (unsuffixed ctx),
          emit (EvWarning ("Failed to parse matrix input: " +:+ msg)) w))
  ∧ (∀ v msg, input ≠ "" → JSON_parse input = inr v → Object_entries v = inl msg →
       generateSource ctx input w
       = (Ret (unsuffixed ctx),
          emit (EvWarning ("Failed to parse matrix input: " +:+ msg)) w)).
Proof.
  split_and!.
  - unfold generateSource, bind, try_catch, lift.
    destruct (negb (String.eqb input "")); [|by eauto].
    destruct (JSON_parse input) as [msg|v]; simpl; [by eauto|].
    destruct (Object_entries v) as [msg|m]; simpl; by eauto.
  - intros ->. reflexivity.
  - intros msg Hne Hparse. unfold generateSource, bind, try_catch, lift.
    rewrite if_nonempty by done. by rewrite Hparse.
  - intros v msg Hne Hparse Hentries. unfold generateSource, bind, try_catch, lift.
    rewrite if_nonempty by done. rewrite Hparse. simpl. by rewrite Hentries.
Qed.

Lemma C8_generateSource_never_fails_witness :
  @generateSource Demo.runtime Demo.ctx "" (Demo.world []) = (Ret "ci/test", Demo.world [])
  ∧ @generateSource Demo.runtime Demo.ctx "not json" (Demo.world [])
    = (Ret "ci/test",
       emit (EvWarning "Failed to parse matrix input: Unexpected token in JSON at position 0")
            (Demo.world []))
  ∧ @generateSource Demo.runtime Demo.ctx "null" (Demo.world [])
    = (Ret "ci/test",
       emit (EvWarning "Failed to parse matrix input: Cannot convert undefined or null to object")
            (Demo.world [])).
Proof.
  destruct (@C8_generateSource_never_fails Demo.runtime Demo.ctx "" (Demo.world []))
    as (_ & Hempty & _ & _).
  destruct (@C8_generateSource_never_fails Demo.runtime Demo.ctx "not json" (Demo.world []))
    as (_ & _ & Hparse & _).
  destruct (@C8_generateSource_never_fails Demo.runtime Demo.ctx "null" (Demo.world []))
    as (_ & _ & _ & Hentries).
  split_and!.
  - apply Hempty. reflexivity.
  - apply Hparse; [discriminate | reflexivity].
  - apply (Hentries Demo.JsonNull); [discriminate | reflexivity | reflexivity].
Defined.

(** ** The resolve query *)

#[global] Instance by_latest_total : Total by_latest.
Proof.
  intros r1 r2. unfold by_latest, latest_first.
  rewrite (String.compare_antisym (source r2) (source r1)).
  destruct (String.compare (source r1) (source r2)); simpl; [|by left|by right].
  rewrite (Z.compare_antisym (run_id r2) (run_id r1)).
  destruct (run_id r2 ?= run_id r1); simpl; [|by left|by right].
  destruct (Z.leb_spec (run_attempt r2) (run_attempt r1)); [by left|right].
  apply Z.leb_le. lia.
Qed.

Lemma by_latest_source (r1 r2 : Row) :
  by_latest r1 r2 → String.compare (source r1) (source r2) ≠ Gt.
Proof. unfold by_latest, latest_first. by destruct (String.compare _ _). Qed.

Lemma by_latest_same_source (r1 r2 : Row) :
  source r1 = source r2 → by_latest r1 r2 ↔ run_le r2 r1.
Proof.
  intros Hs. unfold by_latest, latest_first, run_le.
  rewrite Hs, string_compare_refl.
  destruct (Z.compare_spec (run_id r2) (run_id r1)); [|split; [lia|done]|].
  - rewrite Z.leb_le. lia.
  - split; [done|lia].
Qed.

#[global] Instance by_latest_trans : Transitive by_latest.
Proof.
  intros r1 r2 r3 H12 H23.
  destruct (String.compare (source r1) (source r2)) eqn:E12.
  - apply String.compare_eq_iff in E12.
    destruct (String.compare (source r2) (source r3)) eqn:E23.
    + apply String.compare_eq_iff in E23.
      apply by_latest_same_source in H12, H23; [|done..].
      apply by_latest_same_source; [congruence|].
      unfold run_le in *. lia.
    + unfold by_latest, latest_first. by rewrite E12, E23.
    + by apply by_latest_source in H23.
  - assert (String.compare (source r1) (source r3) = Lt) as E13.
    { destruct (String.compare (source r2) (source r3)) eqn:E23.
      - apply String.compare_eq_iff in E23. by rewrite <- E23.
      - by apply (string_compare_lt_trans _ (source r2)).
      - by apply by_latest_source in H23. }
    unfold by_latest, latest_first. by rewrite E13.
  - by apply by_latest_source in H12.
Qed.

#[global] Instance by_created_at_total : Total by_created_at.
Proof. intros r1 r2. unfold by_created_at. lia. Qed.

#[global] Instance by_created_at_trans : Transitive by_created_at.
Proof. intros r1 r2 r3. unfold by_created_at. lia. Qed.

Lemma distinct_on_source_subseteq (prev : option string) (rows : list Row) (r : Row) :
  r ∈ distinct_on_source prev rows → r ∈ rows.
Proof.
  revert prev. induction rows as [|x rows IH]; intros prev; simpl; [done|].
  case_decide.
  - intros Hr. right. by eapply IH.
  - rewrite elem_of_cons. intros [->|Hr]; [left|right; by eapply IH].
Qed.

(** Every [source] of the input is the one before, or is kept. *)
Lemma distinct_on_source_covers (prev : option string) (rows : list Row) (r : Row) :
  r ∈ rows →
  prev = Some (source r) ∨ ∃ r', r' ∈ distinct_on_source prev rows ∧ source r' = source r.
Proof.
  revert prev. induction rows as [|x rows IH]; intros prev; simpl; [by inversion 1|].
  rewrite elem_of_cons. intros [->|Hr].
  - case_decide; [by left|right]. exists x. by rewrite elem_of_cons; auto.
  - case_decide; [by apply IH|].
    destruct (IH (Some (source x)) Hr) as [Heq|(r' & Hr' & Hs)]; right.
    + exists x. rewrite elem_of_cons. split; [by left|congruence].
    + exists r'. rewrite elem_of_cons. auto.
Qed.

(** In sorted rows, nothing kept after [x] has the [source] of [x]. *)
Lemma distinct_on_source_fresh (x : Row) (rows : list Row) (r : Row) :
  StronglySorted by_latest (x :: rows) →
  r ∈ distinct_on_source (Some (source x)) rows → source r ≠ source x.
Proof.
  induction rows as [|y rows IH]; simpl; [by inversion 2|].
  rewrite !StronglySorted_cons, !Forall_cons. intros [[Hxy Hx] [Hy Hrows]].
  case_decide as Hprev.
  - apply IH. by rewrite StronglySorted_cons.
  - assert (String.compare (source x) (source y) = Lt) as Elt.
    { apply by_latest_source in Hxy.
      destruct (String.compare (source x) (source y)) eqn:E; [|done..].
      apply String.compare_eq_iff in E. congruence. }
    assert (∀ z, by_latest y z → source z ≠ source x) as Hafter.
    { intros z Hyz Hzx. apply by_latest_source in Hyz.
      rewrite Hzx in Hyz. apply Hyz, string_compare_gt_lt. done. }
    rewrite elem_of_cons. intros [->|Hr].
    + apply Hafter. destruct (total by_latest y y); done.
    + apply Hafter. apply distinct_on_source_subseteq in Hr.
      by eapply Forall_forall in Hy.
Qed.

Lemma distinct_on_source_NoDup (prev : option string) (rows : list Row) :
  StronglySorted by_latest rows →
  NoDup (source <$> distinct_on_source prev rows).
Proof.
  revert prev. induction rows as [|x rows IH]; intros prev Hsorted; simpl.
  { constructor. }
  pose proof Hsorted as [_ Hrows]%StronglySorted_cons.
  case_decide; [by apply IH|].
  rewrite fmap_cons. constructor; [|by apply IH].
  rewrite list_elem_of_fmap. intros (r & Hs & Hr).
  by eapply distinct_on_source_fresh.
Qed.

(** In sorted rows, a kept row comes before every row of its [source]. *)
Lemma distinct_on_source_first (prev : option string) (rows : list Row) (r r0 : Row) :
  StronglySorted by_latest rows →
  r ∈ distinct_on_source prev rows → r0 ∈ rows → source r0 = source r →
  by_latest r r0.
Proof.
  revert prev. induction rows as [|x rows IH]; intros prev Hsorted; simpl.
  { by inversion 1. }
  pose proof Hsorted as [Hx Hrows]%StronglySorted_cons.
  case_decide as Hprev.
  - intros Hr. rewrite elem_of_cons. intros [->|Hr0] Hs; [|by eapply IH].
    subst prev. by eapply distinct_on_source_fresh in Hr.
  - rewrite !elem_of_cons. intros [->|Hr] [->|Hr0] Hs.
    + destruct (total by_latest x x); done.
    + by eapply Forall_forall in Hx.
    + by eapply distinct_on_source_fresh in Hr.
    + by eapply IH.
Qed.

(** The rows of the pull request and commit have exactly one record per
    [source] in the view, the one with the greatest [(run_id, run_attempt)],
    and the view is in ascending order of [created_at]. *)
Lemma select_latest_runs_spec (prNumber : Z) (commitSha : string) (rows : list Row) :
  let view := select_latest_runs prNumber commitSha rows in
  NoDup (source <$> view)
  ∧ (∀ r, r ∈ rows → where_pr_commit prNumber commitSha r →
       ∃ r', r' ∈ view ∧ source r' = source r)
  ∧ (∀ r', r' ∈ view →
       r' ∈ rows ∧ where_pr_commit prNumber commitSha r' ∧
       ∀ r, r ∈ rows → where_pr_commit prNumber commitSha r →
            source r = source r' → run_le r r')
  ∧ StronglySorted by_created_at view.
Proof.
  intros view. unfold view, select_latest_runs, latest_runs.
  set (matching := filter (where_pr_commit prNumber commitSha) rows).
  assert (StronglySorted by_latest (merge_sort by_latest matching)) as Hsorted
    by (apply StronglySorted_merge_sort; apply _).
  assert (∀ r, r ∈ merge_sort by_latest matching
               ↔ r ∈ rows ∧ where_pr_commit prNumber commitSha r) as Hmatching.
  { intros r. rewrite merge_sort_Permutation. unfold matching.
    rewrite list_elem_of_filter. tauto. }
  split_and!.
  - rewrite merge_sort_Permutation. by apply distinct_on_source_NoDup.
  - intros r Hr Hwhere.
    destruct (distinct_on_source_covers None (merge_sort by_latest matching) r)
      as [?|(r' & Hr' & Hs)]; [by apply Hmatching|done|].
    exists r'. by rewrite merge_sort_Permutation.
  - intros r'. rewrite merge_sort_Permutation. intros Hr'.
    pose proof (distinct_on_source_subseteq _ _ _ Hr') as [??]%Hmatching.
    split_and!; [done..|]. intros r Hr Hwhere Hs.
    apply by_latest_same_source; [done|].
    eapply distinct_on_source_first; [done..| |done]. by apply Hmatching.
  - apply StronglySorted_merge_sort; apply _.
Qed.

(** ** Completions *)

Lemma bind_Ret {A B} (m : M A) (k : A → M B) (w w' : World) (b : B) :
  bind m k w = (Ret b, w') ↔ ∃ a w1, m w = (Ret a, w1) ∧ k a w1 = (Ret b, w').
Proof.
  unfold bind. destruct (m w) as [[a|e] w1]; split.
  - eauto.
  - by intros (? & ? & [= -> ->] & ?).
  - done.
  - by intros (? & ? & ? & ?).
Qed.

Lemma call_Ret {A} (ev : Event) (sem : World → A * World) (w w' : World) (a : A) :
  call ev sem w = (Ret a, w')
  ↔ fault (hd quiet (plan w)) = None ∧ sem (env_step ev w) = (a, w').
Proof.
  unfold call. destruct (fault _); [by split; [|intros []]|].
  destruct (sem _) as [a' w1]. split; [by intros [= -> ->]|by intros [_ [= -> ->]]].
Qed.

Lemma call_Throw {A} (ev : Event) (sem : World → A * World) (w w' : World) (e : js_error) :
  call ev sem w = (Throw e, w')
  ↔ fault (hd quiet (plan w)) = Some e ∧ w' = env_step ev w.
Proof.
  unfold call. destruct (fault _).
  - split; [by intros [= -> ->]|by intros [[= ->] ->]].
  - destruct (sem _). by split; [|intros []].
Qed.

(** ** Effects that keep a relation between worlds *)

Section respects.
Context (R : relation World) `{!PreOrder R}.

Lemma respects_ret {A} (a : A) : respects R (ret a).
Proof. intros w. simpl. reflexivity. Qed.

Lemma respects_throw {A} (e : js_error) : respects R (@throw A e).
Proof. intros w. simpl. reflexivity. Qed.

Lemma respects_bind {A B} (m : M A) (k : A → M B) :
  respects R m → (∀ a, respects R (k a)) → respects R (bind m k).
Proof.
  intros Hm Hk w. unfold bind. specialize (Hm w).
  destruct (m w) as [[a|e] w1]; simpl in *; [|done].
  etrans; [exact Hm|apply Hk].
Qed.

Lemma respects_try_catch {A} (m : M A) (h : js_error → M A) :
  respects R m → (∀ e, respects R (h e)) → respects R (try_catch m h).
Proof.
  intros Hm Hh w. unfold try_catch. specialize (Hm w).
  destruct (m w) as [[a|e] w1]; simpl in *; [done|].
  etrans; [exact Hm|apply Hh].
Qed.

Lemma respects_try_finally {A} (m : M A) (c : M unit) :
  respects R m → respects R c → respects R (try_finally m c).
Proof.
  intros Hm Hc w. unfold try_finally. specialize (Hm w).
  destruct (m w) as [r w1]. specialize (Hc w1).
  destruct (c w1) as [[?|?] w2]; simpl in *; by etrans.
Qed.

Lemma respects_when (c : bool) (m : M unit) :
  respects R m → respects R (when c m).
Proof. destruct c; [done|]. intros _. apply respects_ret. Qed.

Lemma respects_if {A} (c : bool) (m1 m2 : M A) :
  respects R m1 → respects R m2 → respects R (if c then m1 else m2).
Proof. by destruct c. Qed.

Lemma respects_lift {A} (r : string + A) : respects R (lift r).
Proof. destruct r; [apply respects_throw|apply respects_ret]. Qed.

Lemma respects_call {A} (ev : Event) (sem : World → A * World) :
  (∀ w, R w (env_step ev w)) → (∀ w, R w (snd (sem w))) →
  respects R (call ev sem).
Proof.
  intros Hstep Hsem w. unfold call. destruct (fault _); simpl; [apply Hstep|].
  specialize (Hsem (env_step ev w)). destruct (sem _) as [a w']. simpl in *.
  etrans; [apply Hstep|exact Hsem].
Qed.
End respects.

(** *** Counting events *)

#[global] Instance same_count_preorder (Q : Event → bool) : PreOrder (same_count Q).
Proof.
  split; [by intros w|]. intros w1 w2 w3. unfold same_count. congruence.
Qed.

Lemma count_cons (Q : Event → bool) (ev : Event) (t : list Event) :
  count Q (ev :: t) = ((if Q ev then 1 else 0) + count Q t)%nat.
Proof.
  unfold count. rewrite filter_cons.
  destruct (decide (Q ev)) as [HQ|HQ]; destruct (Q ev); done.
Qed.

Lemma sql_effect_trace (q : Sql) (w : World) : trace (snd (sql_effect q w)) = trace w.
Proof. destruct q; simpl; try done. by destruct (tx w). Qed.

Section same_count.
Context (Q : Event → bool).

Lemma same_count_emit (ev : Event) (w : World) :
  Q ev = false → same_count Q w (emit ev w).
Proof. intros HQ. unfold same_count. simpl. by rewrite count_cons, HQ. Qed.

Lemma same_count_call {A} (ev : Event) (sem : World → A * World) :
  Q ev = false → (∀ w, trace (snd (sem w)) = trace w) →
  respects (same_count Q) (call ev sem).
Proof.
  intros HQ Hsem. apply respects_call; [apply _| |].
  - intros w. unfold same_count. simpl. by rewrite count_cons, HQ.
  - intros w. unfold same_count. by rewrite Hsem.
Qed.

Lemma same_count_core_info (msg : string) :
  Q (EvInfo msg) = false → respects (same_count Q) (core_info msg).
Proof. intros HQ w. by apply same_count_emit. Qed.

Lemma same_count_core_warning (msg : string) :
  Q (EvWarning msg) = false → respects (same_count Q) (core_warning msg).
Proof. intros HQ w. by apply same_count_emit. Qed.

Lemma same_count_core_error (msg : string + js_error) :
  Q (EvError msg) = false → respects (same_count Q) (core_error msg).
Proof. intros HQ w. by apply same_count_emit. Qed.

Lemma same_count_sleep (ms : Z) :
  Q (EvSleep ms) = false → respects (same_count Q) (sleep ms).
Proof. intros HQ w. unfold same_count. simpl. by rewrite count_cons, HQ. Qed.

Lemma same_count_client_connect :
  Q EvConnect = false → respects (same_count Q) client_connect.
Proof. intros HQ. by apply same_count_call. Qed.

Lemma same_count_client_query (q : Sql) :
  Q (EvQuery q) = false → respects (same_count Q) (client_query q).
Proof. intros HQ. apply same_count_call; [done|]. apply sql_effect_trace. Qed.

Lemma same_count_client_end :
  Q EvEnd = false → respects (same_count Q) client_end.
Proof. intros HQ. by apply same_count_call. Qed.

Lemma same_count_listComments (issue_number : Z) (per_page : nat) :
  Q (EvListComments issue_number) = false →
  respects (same_count Q) (listComments issue_number per_page).
Proof. intros HQ. by apply same_count_call. Qed.

Lemma same_count_updateComment (id : Z) (new_body : string) :
  Q (EvUpdateComment id new_body) = false →
  respects (same_count Q) (updateComment id new_body).
Proof. intros HQ. by apply same_count_call. Qed.

Lemma same_count_createComment (issue_number : Z) (new_body : string) :
  Q (EvCreateComment issue_number new_body) = false →
  respects (same_count Q) (createComment issue_number new_body).
Proof. intros HQ. by apply same_count_call. Qed.
End same_count.

(** *** What gets committed *)

#[global] Instance others_committed_preorder : PreOrder others_committed.
Proof.
  split.
  - intros w. exists 0%nat. by rewrite drop_0, take_0, app_nil_r.
  - intros w1 w2 w3 (n1 & Hplan1 & Htable1) (n2 & Hplan2 & Htable2).
    exists (n1 + n2)%nat. split.
    + by rewrite Hplan2, Hplan1, drop_drop.
    + rewrite Htable2, Htable1, Hplan1, <- take_take_drop, fmap_app, concat_app.
      by rewrite app_assoc.
Qed.

Lemma others_committed_same (w w' : World) :
  table w' = table w → plan w' = plan w → others_committed w w'.
Proof.
  intros Htable Hplan. exists 0%nat. by rewrite drop_0, take_0, app_nil_r.
Qed.

Lemma others_committed_env_step (ev : Event) (w : World) :
  others_committed w (env_step ev w).
Proof.
  exists 1%nat. simpl.
  destruct (plan w) as [|st pl]; simpl; by rewrite ?drop_0, ?take_0, ?app_nil_r.
Qed.

Lemma others_committed_call {A} (ev : Event) (sem : World → A * World) :
  (∀ w, table (snd (sem w)) = table w ∧ plan (snd (sem w)) = plan w) →
  respects others_committed (call ev sem).
Proof.
  intros Hsem. apply respects_call; [apply _| |].
  - apply others_committed_env_step.
  - intros w. by apply others_committed_same; apply Hsem.
Qed.

Lemma others_committed_core_error (msg : string + js_error) :
  respects others_committed (core_error msg).
Proof. intros w. by apply others_committed_same. Qed.

Lemma others_committed_client_end : respects others_committed client_end.
Proof. by apply others_committed_call. Qed.

Lemma others_committed_ROLLBACK : respects others_committed (client_query ROLLBACK).
Proof. by apply others_committed_call. Qed.

Lemma others_committed_listComments (issue_number : Z) (per_page : nat) :
  respects others_committed (listComments issue_number per_page).
Proof. by apply others_committed_call. Qed.

Lemma others_committed_updateComment (id : Z) (new_body : string) :
  respects others_committed (updateComment id new_body).
Proof. by apply others_committed_call. Qed.

Lemma others_committed_createComment (issue_number : Z) (new_body : string) :
  respects others_committed (createComment issue_number new_body).
Proof. by apply others_committed_call. Qed.

(** Decompose a computation into its statements, and close the calls with
    the lemmas above. *)
Ltac respects_step :=
  first
    [ apply respects_ret | apply respects_throw | apply respects_lift
    | apply respects_bind | apply respects_try_catch | apply respects_try_finally
    | apply respects_when
    | apply same_count_core_info | apply same_count_core_warning
    | apply same_count_core_error | apply same_count_sleep
    | apply same_count_client_connect | apply same_count_client_query
    | apply same_count_client_end | apply same_count_listComments
    | apply same_count_updateComment | apply same_count_createComment
    | apply others_committed_core_error | apply others_committed_client_end
    | apply others_committed_ROLLBACK | apply others_committed_listComments
    | apply others_committed_updateComment | apply others_committed_createComment
    | match goal with
      | |- respects _ (if ?c then _ else _) => destruct c
      | |- respects _ (match ?x with _ => _ end) => destruct x
      end
    | apply _ | reflexivity | progress intros ].

Ltac respects := repeat respects_step.

Lemma generateSource_same_count `{JSRuntime} (Q : Event → bool)
    (ctx : Context) (input : string) :
  (∀ msg, Q (EvWarning msg) = false) →
  respects (same_count Q) (generateSource ctx input).
Proof. intros HQ. unfold generateSource. respects. apply HQ. Qed.

Lemma append_resolve_same_count (Q : Event → bool) (p : Params) (src : string) :
  (∀ q, q ≠ COMMIT → q ≠ ROLLBACK → Q (EvQuery q) = false) →
  respects (same_count Q) (append_resolve p src).
Proof. intros HQ. unfold append_resolve. respects; by apply HQ. Qed.

Lemma external_sync_same_count (Q : Event → bool) (p : Params) (combinedMessage : string) :
  (∀ msg, Q (EvError msg) = false) →
  (∀ ev, is_sync_call ev = true → Q ev = false) →
  respects (same_count Q) (external_sync p combinedMessage).
Proof. intros HQe HQs. unfold external_sync. respects; eauto. Qed.

Lemma on_error_same_count (Q : Event → bool) (attempt : Z) (error : js_error) :
  (∀ msg, Q (EvError msg) = false) → (∀ msg, Q (EvInfo msg) = false) →
  (∀ ms, Q (EvSleep ms) = false) →
  respects (same_count Q) (on_error attempt error).
Proof.
  intros HQe HQi HQs. unfold on_error, fail_database_error. respects; eauto.
Qed.

(** ** Append-Resolve Transaction *)

(** What [append_resolve] returns is the view over the rows its session
    sees, and the row it inserted is among them. *)
Lemma append_resolve_view (p : Params) (src : string) (w w' : World) (view : list Row) :
  append_resolve p src w = (Ret view, w') →
  view = select_latest_runs (pull_request_number (context p))
           (pull_request_head_sha (context p)) (visible w')
  ∧ ∃ r, r ∈ visible w'
         ∧ where_pr_commit (pull_request_number (context p))
             (pull_request_head_sha (context p)) r
         ∧ source r = src ∧ message r = params_message p
         ∧ run_id r = runId (context p) ∧ run_attempt r = GITHUB_RUN_ATTEMPT p.
Proof.
  unfold append_resolve, client_query.
  intros (? & w1 & [_ Hbegin]%call_Ret
          & (? & w2 & [_ Hinsert]%call_Ret & [_ Hselect]%call_Ret)%bind_Ret)%bind_Ret.
  simpl in Hbegin. injection Hbegin as _ <-.
  simpl in Hinsert. injection Hinsert as _ <-.
  simpl in Hselect. injection Hselect as <- <-.
  split; [done|].
  eexists. split.
  - unfold visible. simpl. rewrite elem_of_app. right. by left.
  - by unfold where_pr_commit.
Qed.

(** C1. The view that the Append-Resolve Transaction returns has, over the
    rows of the pull request and commit that the transaction sees, exactly
    one record per distinct source key: no source key occurs twice, every
    source key of a row occurs, and every record is a row whose
    [(run_id, run_attempt)] is maximal among the rows of its source key.
    The view is in ascending order of [created_at]. *)
Theorem C1_resolved_view_latest_per_source
    (p : Params) (src : string) (w w' : World) (view : list Row) :
  append_resolve p src w = (Ret view, w') →
  let prNumber := pull_request_number (context p) in
  let commitSha := pull_request_head_sha (context p) in
  NoDup (source <$> view)
  ∧ (∀ r, r ∈ visible w' → where_pr_commit prNumber commitSha r →
       ∃ r', r' ∈ view ∧ source r' = source r)
  ∧ (∀ r', r' ∈ view →
       r' ∈ visible w' ∧ where_pr_commit prNumber commitSha r' ∧
       ∀ r, r ∈ visible w' → where_pr_commit prNumber commitSha r →
            source r = source r' → run_le r r')
  ∧ StronglySorted by_created_at view.
Proof.
  intros [-> _]%append_resolve_view. apply select_latest_runs_spec.
Qed.

(** On the stored rows of the example the view is: run 9/2 of [ci/test]
    (although run 9/1 was inserted later) and [ci/lint], oldest first. *)
Lemma C1_resolved_view_latest_per_source_witness :
  ∃ w',
    append_resolve Demo.params "ci/build" (Demo.stored_world []) =
      (Ret [ mk_Row 2 7 "abc123" "rerun failed" 40 "ci/test" 9 2;
             mk_Row 1 7 "abc123" "lint ok" 50 "ci/lint" 9 1;
             mk_Row 5 7 "abc123" "build ok" 101 "ci/build" 10 1 ], w')
    ∧ NoDup ["ci/test"; "ci/lint"; "ci/build"].
Proof.
  eexists. split; [vm_compute; reflexivity|].
  refine (proj1 (C1_resolved_view_latest_per_source Demo.params "ci/build"
                   (Demo.stored_world []) _
                   [ mk_Row 2 7 "abc123" "rerun failed" 40 "ci/test" 9 2;
                     mk_Row 1 7 "abc123" "lint ok" 50 "ci/lint" 9 1;
                     mk_Row 5 7 "abc123" "build ok" 101 "ci/build" 10 1 ] _)).
  vm_compute. reflexivity.
Defined.

(** C10. The view of a successful Append-Resolve Transaction is never
    empty: it has a record with the source key that was just appended. *)
Theorem C10_resolved_view_has_appended_source
    (p : Params) (src : string) (w w' : World) (view : list Row) :
  append_resolve p src w = (Ret view, w') →
  view ≠ [] ∧ ∃ r, r ∈ view ∧ source r = src.
Proof.
  intros Hrun.
  destruct (append_resolve_view _ _ _ _ _ Hrun) as (-> & r & Hr & Hwhere & Hsrc & _).
  destruct (select_latest_runs_spec (pull_request_number (context p))
              (pull_request_head_sha (context p)) (visible w')) as (_ & Hcover & _).
  destruct (Hcover r Hr Hwhere) as (r' & Hr' & Hs).
  split.
  - intros Hnil. rewrite Hnil in Hr'. by inversion Hr'.
  - exists r'. split; [done|congruence].
Qed.

Lemma C10_resolved_view_has_appended_source_witness :
  ∃ view w',
    append_resolve Demo.params "ci/test" (Demo.world []) = (Ret view, w')
    ∧ view ≠ [] ∧ ∃ r, r ∈ view ∧ source r = "ci/test".
Proof.
  eexists _, _. split; [vm_compute; reflexivity|].
  apply (C10_resolved_view_has_appended_source Demo.params "ci/test" (Demo.world [])
           (env_step (EvQuery (SELECT_latest_runs 7 "abc123"))
              (snd (sql_effect (INSERT 7 "abc123" "build ok" "ci/test" 10 1)
                      (env_step (EvQuery (INSERT 7 "abc123" "build ok" "ci/test" 10 1))
                         (snd (sql_effect BEGIN (env_step (EvQuery BEGIN) (Demo.world []))))))))).
  vm_compute. reflexivity.
Defined.

(** ** Retry/Backoff Controller *)

Lemma RETRY_ERROR_CODES_has_spec (v : jsval) :
  RETRY_ERROR_CODES_has v = true
  ↔ v = JStr "55P03" ∨ v = JStr "40P01" ∨ v = JStr "57014".
Proof.
  destruct v as [|n|s]; simpl.
  - split; [done|]. by intros [|[|]].
  - split; [done|]. by intros [|[|]].
  - rewrite bool_decide_eq_true. unfold RETRY_ERROR_CODES.
    rewrite !elem_of_union, !elem_of_singleton.
    split; [intros [[->| ->]| ->]; auto|intros [[= ->]|[[= ->]|[= ->]]]; auto].
Qed.

Lemma transient_conflict_spec (error : js_error) :
  transient_conflict error = true
  ↔ truthy (e_status error) = false
    ∧ (e_code error = JStr "55P03" ∨ e_code error = JStr "40P01"
       ∨ e_code error = JStr "57014").
Proof.
  unfold transient_conflict.
  rewrite andb_true_iff, negb_true_iff, RETRY_ERROR_CODES_has_spec. done.
Qed.

Lemma fail_database_error_throws (error : js_error) (w : World) :
  ∃ w', fail_database_error error w = (Throw error, w').
Proof.
  unfold fail_database_error, bind, when, core_error, ret, throw.
  destruct (truthy (e_code error)), (truthy (e_position error)),
    (truthy (e_detail error)), (truthy (e_hint error)); by eexists.
Qed.

(** A transient conflict before the last attempt: two lines of log, the
    sleep, and the loop goes on. *)
Lemma on_error_transient (attempt : Z) (error : js_error) (w : World) :
  transient_conflict error = true → attempt ≠ MAX_RETRIES →
  on_error attempt error w =
    (Ret tt,
     emit (EvSleep (RETRY_DELAY * attempt))
       (set_now (Z.add (RETRY_DELAY * attempt))
          (emit (EvInfo ("Attempt " +:+ pretty attempt +:+ " failed, retrying in " +:+
                         pretty (RETRY_DELAY * attempt) +:+ "ms..."))
             (emit (EvInfo (e_message error +:+ ", will retry...")) w)))).
Proof.
  unfold transient_conflict. rewrite andb_true_iff, negb_true_iff.
  intros [Hstatus Hcode] Hattempt%Z.eqb_neq.
  unfold on_error. by rewrite Hstatus, Hcode, Hattempt.
Qed.

(** Everything else is thrown again, as it is. *)
Lemma on_error_fatal (attempt : Z) (error : js_error) (w : World) :
  transient_conflict error = false ∨ attempt = MAX_RETRIES →
  ∃ w', on_error attempt error w = (Throw error, w').
Proof.
  unfold transient_conflict, on_error. intros Hfatal.
  destruct (truthy (e_status error)) eqn:Hstatus; [by eexists|].
  destruct (RETRY_ERROR_CODES_has (e_code error)) eqn:Hcode;
    [|apply fail_database_error_throws].
  destruct Hfatal as [?| ->]; [done|].
  unfold bind, core_info. simpl. apply fail_database_error_throws.
Qed.

Lemma on_error_continues_iff (attempt : Z) (error : js_error) (w : World) :
  (∃ w', on_error attempt error w = (Ret tt, w'))
  ↔ transient_conflict error = true ∧ attempt ≠ MAX_RETRIES.
Proof.
  split.
  - intros [w' Hret].
    destruct (transient_conflict error) eqn:Htransient.
    + split; [done|]. intros Hlast.
      destruct (on_error_fatal attempt error w) as [w'' Hthrow]; [by right|].
      congruence.
    + destruct (on_error_fatal attempt error w) as [w'' Hthrow]; [by left|].
      congruence.
  - intros [Htransient Hattempt]. eexists. by apply on_error_transient.
Qed.

Lemma retry_loop_throw `{JSRuntime} (p : Params) (src : string) (k : nat) (attempt : Z)
    (error : js_error) (w w1 w' : World) :
  attempt_once p src w = (Throw error, w1) →
  on_error attempt error w1 = (Throw error, w') →
  retry_loop p src (S k) attempt w = (Throw error, w').
Proof. intros Hattempt Herror. simpl. unfold try_catch, bind. by rewrite Hattempt, Herror. Qed.

Lemma retry_loop_continue `{JSRuntime} (p : Params) (src : string) (k : nat) (attempt : Z)
    (error : js_error) (w w1 w2 : World) :
  attempt_once p src w = (Throw error, w1) →
  on_error attempt error w1 = (Ret tt, w2) →
  retry_loop p src (S k) attempt w = retry_loop p src k (attempt + 1) w2.
Proof. intros Hattempt Herror. simpl. unfold try_catch, bind. by rewrite Hattempt, Herror. Qed.

Lemma on_error_fatal_quiet (Q : Event → bool) (attempt : Z) (error : js_error) :
  (∀ msg, Q (EvError msg) = false) → (∀ msg, Q (EvInfo msg) = false) →
  transient_conflict error = false ∨ attempt = MAX_RETRIES →
  respects (same_count Q) (on_error attempt error).
Proof.
  intros HQe HQi Hfatal. unfold on_error, transient_conflict in *.
  destruct (truthy (e_status error)); [by respects|].
  destruct (RETRY_ERROR_CODES_has (e_code error));
    [|unfold fail_database_error; by respects].
  destruct Hfatal as [?| ->]; [done|]. rewrite Z.eqb_refl. simpl.
  unfold fail_database_error. by respects.
Qed.

Lemma on_error_not_transient_quiet (Q : Event → bool) (attempt : Z) (error : js_error) :
  (∀ msg, Q (EvError msg) = false) →
  transient_conflict error = false →
  respects (same_count Q) (on_error attempt error).
Proof.
  intros HQe Hfatal. unfold on_error, transient_conflict in *.
  destruct (truthy (e_status error)); [by respects|].
  destruct (RETRY_ERROR_CODES_has (e_code error)); [done|].
  unfold fail_database_error. by respects.
Qed.

(** The branch of [RETRY_ERROR_CODES] writes a line with [core.info], and
    no other branch does. *)
Lemma on_error_logs_info (attempt : Z) (error : js_error) (w : World) :
  (count is_info (trace w) < count is_info (trace (snd (on_error attempt error w))))%nat
  ↔ transient_conflict error = true.
Proof.
  destruct (transient_conflict error) eqn:Htransient.
  - split; [done|intros _].
    destruct (decide (attempt = MAX_RETRIES)) as [->|Hmore].
    + unfold transient_conflict in Htransient.
      apply andb_true_iff in Htransient as [Hstatus%negb_true_iff Hcode].
      unfold on_error. rewrite Hstatus, Hcode, Z.eqb_refl.
      unfold bind, core_info. cbn [fst snd].
      assert (respects (same_count is_info) (fail_database_error error)) as Hfail.
      { unfold fail_database_error. by respects. }
      rewrite (Hfail _). simpl. rewrite count_cons. simpl. lia.
    + rewrite (on_error_transient attempt error w Htransient Hmore). simpl.
      rewrite !count_cons. simpl. lia.
  - split; [|done]. intros Hmore.
    pose proof (on_error_not_transient_quiet is_info attempt error
                  ltac:(done) Htransient w) as Hcount.
    unfold same_count in Hcount. lia.
Qed.

Lemma raised_in_attempt_transient (error : js_error) :
  raised_in_attempt error →
  transient_conflict error = true ↔ has_retry_code error.
Proof.
  intros Hraised. rewrite transient_conflict_spec. unfold has_retry_code.
  destruct Hraised as [Hstatus|[Hstatus Hcode]].
  - rewrite Hstatus. simpl. tauto.
  - rewrite Hstatus. split; [by intros [? _]|].
    intros [Hc|[Hc|Hc]]; by apply Hcode in Hc.
Qed.

(** C4. For every error that a collaborator raises during an attempt, the
    controller takes it for a transient conflict (the branch of
    [RETRY_ERROR_CODES], which logs a line with [core.info] and, while an
    attempt is left, goes on to the next one) exactly when its [code] is
    55P03, 40P01 or 57014.  An error with any other [code], an error of the
    GitHub client among them, is fatal at every attempt: the same error is
    thrown again at once, the call of [processWithRetry] ends with it, and
    no connection is opened and no sleep is made after the failed attempt. *)
Theorem C4_error_classification `{JSRuntime}
    (p : Params) (src : string) (k : nat) (attempt : Z) (error : js_error) (w : World) :
  raised_in_attempt error →
  (transient_conflict error = true ↔ has_retry_code error)
  ∧ ((count is_info (trace w)
      < count is_info (trace (snd (on_error attempt error w))))%nat
     ↔ has_retry_code error)
  ∧ (attempt ≠ MAX_RETRIES →
     (∃ w', on_error attempt error w = (Ret tt, w')) ↔ has_retry_code error)
  ∧ (¬ has_retry_code error →
     ∃ w', on_error attempt error w = (Throw error, w')
           ∧ same_count is_connect w w'
           ∧ same_count is_sleep w w'
           ∧ ∀ w0, attempt_once p src w0 = (Throw error, w) →
                   retry_loop p src (S k) attempt w0 = (Throw error, w')).
Proof.
  intros Hraised%raised_in_attempt_transient.
  split_and!; [done| | |].
  - by rewrite on_error_logs_info.
  - intros Hmore. rewrite on_error_continues_iff. tauto.
  - intros Hfatal.
    assert (transient_conflict error = false) as Hnot.
    { destruct (transient_conflict error); [|done]. destruct Hfatal. by apply Hraised. }
    destruct (on_error_fatal attempt error w (or_introl Hnot)) as [w' Hthrow].
    exists w'. split_and!; [done| | |].
    + pose proof (on_error_not_transient_quiet is_connect attempt error
                    ltac:(done) Hnot w) as Hcount.
      by rewrite Hthrow in Hcount.
    + pose proof (on_error_not_transient_quiet is_sleep attempt error
                    ltac:(done) Hnot w) as Hcount.
      by rewrite Hthrow in Hcount.
    + intros w0 Hattempt. by eapply retry_loop_throw.
Qed.

(** A unique violation in the first attempt ends the call at once, and an
    error of the GitHub client does so too. *)
Lemma C4_error_classification_witness :
  (∃ w', @retry_loop Demo.runtime Demo.params "ci/test" 3 1
           (Demo.world [quiet; quiet; failing (Demo.db_error "23505")])
         = (Throw (Demo.db_error "23505"), w'))
  ∧ (∃ w', @retry_loop Demo.runtime Demo.params "ci/test" 3 1
             (Demo.world (quiet :: Demo.sync_fails))
           = (Throw (Demo.github_error 500), w'))
  ∧ (∃ w', on_error 1 (Demo.db_error "40P01") (Demo.world []) = (Ret tt, w')).
Proof.
  split_and!.
  - destruct (@C4_error_classification Demo.runtime Demo.params "ci/test" 2 1
                (Demo.db_error "23505")
                (snd (@attempt_once Demo.runtime Demo.params "ci/test"
                        (Demo.world [quiet; quiet; failing (Demo.db_error "23505")]))))
      as (_ & _ & _ & Hfatal); [left; reflexivity|].
    destruct Hfatal as (w' & _ & _ & _ & Hloop).
    { intros [Hc|[Hc|Hc]]; discriminate Hc. }
    exists w'. apply Hloop. vm_compute. reflexivity.
  - destruct (@C4_error_classification Demo.runtime Demo.params "ci/test" 2 1
                (Demo.github_error 500)
                (snd (@attempt_once Demo.runtime Demo.params "ci/test"
                        (Demo.world (quiet :: Demo.sync_fails)))))
      as (_ & _ & _ & Hfatal);
      [right; split; [reflexivity|intros s Hc; discriminate Hc]|].
    destruct Hfatal as (w' & _ & _ & _ & Hloop).
    { intros [Hc|[Hc|Hc]]; discriminate Hc. }
    exists w'. apply Hloop. vm_compute. reflexivity.
  - destruct (@C4_error_classification Demo.runtime Demo.params "ci/test" 2 1
                (Demo.db_error "40P01") (Demo.world []))
      as (_ & _ & Hretry & _); [left; reflexivity|].
    apply Hretry; [discriminate|]. right. left. reflexivity.
Defined.

(** C9. After an attempt [n < MAX_RETRIES] that failed with a transient
    conflict, the controller logs two lines, sleeps [RETRY_DELAY * n]
    milliseconds, with [RETRY_DELAY = 1000], and only then enters the next
    attempt. *)
Theorem C9_linear_backoff `{JSRuntime}
    (p : Params) (src : string) (k : nat) (n : Z) (error : js_error) (w w1 : World) :
  attempt_once p src w = (Throw error, w1) →
  transient_conflict error = true →
  n < MAX_RETRIES →
  ∃ w2 line1 line2,
    on_error n error w1 = (Ret tt, w2)
    ∧ trace w2 = EvSleep (RETRY_DELAY * n) :: EvInfo line2 :: EvInfo line1 :: trace w1
    ∧ RETRY_DELAY * n = 1000 * n
    ∧ now w2 = now w1 + RETRY_DELAY * n
    ∧ retry_loop p src (S k) n w = retry_loop p src k (n + 1) w2.
Proof.
  intros Hattempt Htransient Hn.
  assert (n ≠ MAX_RETRIES) as Hlast by lia.
  pose proof (on_error_transient n error w1 Htransient Hlast) as Herror.
  eexists _, _, _. split_and!; [exact Herror|reflexivity|reflexivity| |].
  - simpl. lia.
  - by eapply retry_loop_continue.
Qed.

(** A lock timeout in the second attempt: the controller sleeps 2000 ms. *)
Lemma C9_linear_backoff_witness :
  ∃ w1 w2 line1 line2,
    @attempt_once Demo.runtime Demo.params "ci/test"
      (Demo.world [quiet; quiet; failing (Demo.db_error "55P03")])
    = (Throw (Demo.db_error "55P03"), w1)
    ∧ on_error 2 (Demo.db_error "55P03") w1 = (Ret tt, w2)
    ∧ trace w2 = EvSleep 2000 :: EvInfo line2 :: EvInfo line1 :: trace w1.
Proof.
  eexists _. 
  destruct (@C9_linear_backoff Demo.runtime Demo.params "ci/test" 1 2
              (Demo.db_error "55P03")
              (Demo.world [quiet; quiet; failing (Demo.db_error "55P03")])
              (snd (@attempt_once Demo.runtime Demo.params "ci/test"
                      (Demo.world [quiet; quiet; failing (Demo.db_error "55P03")]))))
    as (w2 & line1 & line2 & Herror & Htrace & _);
    [vm_compute; reflexivity | reflexivity | reflexivity |].
  exists w2, line1, line2. split_and!; [vm_compute; reflexivity|exact Herror|exact Htrace].
Defined.

(** *** The number of attempts *)

Lemma session_no_connect `{JSRuntime} (p : Params) (src : string) :
  respects (same_count is_connect) (session p src).
Proof. unfold session, transaction, append_resolve, external_sync. by respects. Qed.

(** Every attempt opens one connection. *)
Lemma attempt_once_connects `{JSRuntime} (p : Params) (src : string) (w : World) :
  count is_connect (trace (snd (attempt_once p src w))) = S (count is_connect (trace w)).
Proof.
  unfold attempt_once, bind, client_connect, call.
  destruct (fault _); [done|].
  by rewrite (session_no_connect p src (env_step EvConnect w)).
Qed.

(** An error that is not a transient conflict in the first attempt: one
    attempt, and the call ends with that error. *)
Lemma processWithRetry_fatal_first_attempt `{JSRuntime}
    (p : Params) (w w0 w1 : World) (src : string) (error : js_error) :
  generateSource (context p) (matrix p) w = (Ret src, w0) →
  attempt_once p src w0 = (Throw error, w1) →
  transient_conflict error = false →
  ∃ w',
    processWithRetry p w = (Throw error, w')
    ∧ count is_connect (trace w') = (count is_connect (trace w) + 1)%nat.
Proof.
  intros Hsource Hattempt Hfatal.
  pose proof (generateSource_same_count is_connect (context p) (matrix p)
                ltac:(done) w) as Hcount0.
  rewrite Hsource in Hcount0. unfold same_count in Hcount0. simpl in Hcount0.
  destruct (on_error_fatal 1 error w1) as [w' Hthrow]; [by left|].
  exists w'. split.
  - unfold processWithRetry, bind. rewrite Hsource.
    by eapply (retry_loop_throw p src 2 1).
  - pose proof (attempt_once_connects p src w0) as Hconnect.
    rewrite Hattempt in Hconnect. simpl in Hconnect.
    pose proof (on_error_fatal_quiet is_connect 1 error
                  ltac:(done) ltac:(done) ltac:(by left) w1) as Hcount.
    rewrite Hthrow in Hcount. unfold same_count in Hcount. simpl in Hcount. lia.
Qed.

(** The last attempt either returns or throws its own error: the loop never
    runs out, and the statement after it is not reached. *)
Lemma retry_loop_last_attempt `{JSRuntime}
    (p : Params) (src : string) (k : nat) (w : World) :
  (∃ w', retry_loop p src (S k) MAX_RETRIES w = (Ret tt, w')
         ∧ attempt_once p src w = (Ret tt, w'))
  ∨ (∃ error w1 w', attempt_once p src w = (Throw error, w1)
                    ∧ retry_loop p src (S k) MAX_RETRIES w = (Throw error, w')).
Proof.
  destruct (attempt_once p src w) as [[[]|error] w1] eqn:Hattempt.
  - left. exists w1. split; [|done]. simpl. unfold try_catch. by rewrite Hattempt.
  - right. destruct (on_error_fatal MAX_RETRIES error w1) as [w' Hthrow]; [by right|].
    exists error, w1, w'. split; [done|]. by eapply retry_loop_throw.
Qed.

(** After a transient conflict in the first attempt the controller sleeps
    and connects the same client again.  A driver that refuses this ends the
    call in the second attempt, with its own error. *)
Lemma processWithRetry_stops_at_reconnect `{JSRuntime}
    (p : Params) (w w0 w1 : World) (src : string) (error : js_error) :
  generateSource (context p) (matrix p) w = (Ret src, w0) →
  attempt_once p src w0 = (Throw error, w1) →
  transient_conflict error = true →
  (∀ w2, on_error 1 error w1 = (Ret tt, w2) → refuses_reconnect w2) →
  ∃ w',
    processWithRetry p w = (Throw reuse_error, w')
    ∧ count is_connect (trace w') = (count is_connect (trace w) + 2)%nat.
Proof.
  intros Hsource Hattempt Htransient Hrefuses.
  pose proof (generateSource_same_count is_connect (context p) (matrix p)
                ltac:(done) w) as Hcount0.
  rewrite Hsource in Hcount0. unfold same_count in Hcount0. simpl in Hcount0.
  pose proof (attempt_once_connects p src w0) as Hconnect1.
  rewrite Hattempt in Hconnect1. simpl in Hconnect1.
  pose proof (on_error_transient 1 error w1 Htransient ltac:(done)) as Herror.
  specialize (Hrefuses _ Herror).
  set (w2 := emit _ _) in *.
  assert (attempt_once p src w2 = (Throw reuse_error, env_step EvConnect w2))
    as Hattempt2.
  { unfold attempt_once, bind, client_connect, call.
    unfold refuses_reconnect in Hrefuses. by rewrite Hrefuses. }
  destruct (on_error_fatal 2 reuse_error (env_step EvConnect w2)) as [w' Hthrow];
    [by left|].
  exists w'. split.
  - unfold processWithRetry, bind. rewrite Hsource.
    change (Z.to_nat MAX_RETRIES) with 3%nat.
    rewrite (retry_loop_continue _ _ _ _ _ _ _ _ Hattempt Herror).
    by eapply (retry_loop_throw p src 1 (1 + 1)).
  - pose proof (attempt_once_connects p src w2) as Hconnect2.
    rewrite Hattempt2 in Hconnect2. cbn [snd] in Hconnect2.
    pose proof (on_error_fatal_quiet is_connect 2 reuse_error
                  ltac:(done) ltac:(done) ltac:(by left) (env_step EvConnect w2))
      as Hcount.
    rewrite Hthrow in Hcount. unfold same_count in Hcount. cbn [snd] in Hcount.
    rewrite Hcount, Hconnect2. subst w2. simpl. rewrite !count_cons. simpl. lia.
Qed.

(** C5. The [INSERT] of the first attempt runs into a lock timeout, a
    transient conflict.  The controller rolls back, closes the client,
    sleeps 1000 ms and calls [connect()] again on the client that it created
    once, before the loop.  The driver refuses, with an error that has no
    [code]; so the second attempt is the last: the call makes two attempts,
    not [MAX_RETRIES = 3], and it ends with the error of the driver, not
    with the error "Failed after 3 attempts". *)
Theorem C5_retry_ends_at_second_connect :
  let run := @processWithRetry Demo.runtime Demo.params
               (Demo.world Demo.lock_timeout_then_refused) in
  MAX_RETRIES = 3
  ∧ transient_conflict (Demo.db_error "55P03") = true
  ∧ external_calls (trace (snd run))
    = [ EvConnect; EvQuery BEGIN;
        EvQuery (INSERT 7 "abc123" "build ok" "ci/test" 10 1);
        EvQuery ROLLBACK; EvEnd;
        EvSleep 1000;
        EvConnect ]
  ∧ count is_connect (trace (snd run)) = 2%nat
  ∧ fst run = Throw reuse_error
  ∧ fst run ≠ Throw (new_Error ("Failed after " +:+ pretty MAX_RETRIES +:+ " attempts")).
Proof. vm_compute. split_and!; [done..|]. intros [=]. Qed.

(** ** External Sync and the transaction *)

Lemma external_sync_others_committed (p : Params) (combinedMessage : string) :
  respects others_committed (external_sync p combinedMessage).
Proof. unfold external_sync. by respects. Qed.

(** The insert of [append_resolve] is not committed: only the rows of other
    writers have arrived in the table. *)
Lemma append_resolve_others_committed (p : Params) (src : string) (w w' : World)
    (view : list Row) :
  append_resolve p src w = (Ret view, w') → others_committed w w'.
Proof.
  unfold append_resolve, client_query.
  intros (? & w1 & [_ Hbegin]%call_Ret
          & (? & w2 & [_ Hinsert]%call_Ret & [_ Hselect]%call_Ret)%bind_Ret)%bind_Ret.
  simpl in Hbegin. injection Hbegin as _ <-.
  simpl in Hinsert. injection Hinsert as _ <-.
  simpl in Hselect. injection Hselect as _ <-.
  exists 3%nat. simpl.
  destruct (plan w) as [|s1 [|s2 [|s3 pl]]]; simpl;
    by rewrite ?drop_0, ?take_0, ?app_nil_r, <- ?app_assoc.
Qed.

(** C2 (amended). External Sync runs inside the open transaction, before
    [COMMIT].  When a call of External Sync fails after the message was
    appended, the attempt sends no [COMMIT]: it sends [ROLLBACK], closes the
    session and throws the error of External Sync again (the error of
    [ROLLBACK] or of [end()] instead, if one of these two calls fails), and
    the only rows that have been added to the table are those of other
    writers. *)
Theorem C2_sync_failure_rolls_back `{JSRuntime}
    (p : Params) (src : string) (w w1 w2 : World) (view : list Row) (error : js_error) :
  append_resolve p src w = (Ret view, w1) →
  external_sync p (render (pull_request_head_sha (context p)) view) w1
    = (Throw error, w2) →
  ∃ error' w',
    session p src w = (Throw error', w')
    ∧ error' = rethrown error w2
    ∧ (fault (hd quiet (plan w2)) = None →
       fault (hd quiet (tl (plan w2))) = None → error' = error)
    ∧ trace w' = EvEnd :: EvQuery ROLLBACK :: trace w2
    ∧ same_count is_commit w w'
    ∧ others_committed w w'.
Proof.
  intros Happend Hsync.
  assert (transaction p src w = (Throw error, w2)) as Htransaction.
  { unfold transaction, bind. by rewrite Happend, Hsync. }
  assert (same_count is_commit w w2) as Hcommit.
  { trans w1.
    - pose proof (append_resolve_same_count is_commit p src) as Hcount.
      specialize (Hcount ltac:(by intros []) w). by rewrite Happend in Hcount.
    - pose proof (external_sync_same_count is_commit p
                    (render (pull_request_head_sha (context p)) view)
                    ltac:(done) ltac:(by intros []) w1) as Hcount.
      by rewrite Hsync in Hcount. }
  assert (others_committed w w2) as Hothers.
  { trans w1; [by eapply append_resolve_others_committed|].
    pose proof (external_sync_others_committed p
                  (render (pull_request_head_sha (context p)) view) w1) as Hstep.
    by rewrite Hsync in Hstep. }
  pose proof (others_committed_ROLLBACK w2) as Hrollback.
  pose proof (others_committed_client_end) as Hend.
  unfold session, try_finally, try_catch. rewrite Htransaction.
  unfold rethrown, bind, client_query, client_end, call in *.
  destruct (fault (hd quiet (plan w2))) as [e1|]; simpl in *.
  - specialize (Hend (env_step (EvQuery ROLLBACK) w2)). simpl in Hend.
    destruct (fault (hd quiet (tl (plan w2)))) as [e2|]; simpl in *.
    + eexists _, _. split_and!; [done|done|done|done| |by do 2 (etrans; [|done])].
      unfold same_count in *. simpl. by rewrite !count_cons.
    + eexists _, _. split_and!; [done|done|done|done| |by do 2 (etrans; [|done])].
      unfold same_count in *. simpl. by rewrite !count_cons.
  - specialize (Hend (set_tx None (env_step (EvQuery ROLLBACK) w2))). simpl in Hend.
    destruct (fault (hd quiet (tl (plan w2)))) as [e2|]; simpl in *.
    + eexists _, _. split_and!; [done|done|done|done| |by do 2 (etrans; [|done])].
      unfold same_count in *. simpl. by rewrite !count_cons.
    + eexists _, _. split_and!; [done|done|done|done| |by do 2 (etrans; [|done])].
      unfold same_count in *. simpl. by rewrite !count_cons.
Qed.

Lemma C2_sync_failure_rolls_back_witness :
  ∃ w',
    @session Demo.runtime Demo.params "ci/test" (Demo.world Demo.sync_fails)
      = (Throw (Demo.github_error 500), w')
    ∧ same_count is_commit (Demo.world Demo.sync_fails) w'
    ∧ others_committed (Demo.world Demo.sync_fails) w'.
Proof.
  destruct (@C2_sync_failure_rolls_back Demo.runtime Demo.params "ci/test"
              (Demo.world Demo.sync_fails)
              (snd (append_resolve Demo.params "ci/test" (Demo.world Demo.sync_fails)))
              (snd (external_sync Demo.params
                      (@render Demo.runtime "abc123" [Demo.appended 1])
                      (snd (append_resolve Demo.params "ci/test"
                              (Demo.world Demo.sync_fails)))))
              [Demo.appended 1] (Demo.github_error 500))
    as (error' & w' & Hsession & _ & Hsame & _ & Hcommit & Hothers);
    [vm_compute; reflexivity | vm_compute; reflexivity |].
  rewrite (Hsame eq_refl eq_refl) in Hsession.
  exists w'. split_and!; [exact Hsession|exact Hcommit|exact Hothers].
Defined.

(** The creation of the comment fails with a server error.  No [COMMIT] is
    sent before the calls of External Sync, or at all; the transaction is
    rolled back, and the table is as empty as before. *)
Lemma C2_append_is_rolled_back :
  let run := @processWithRetry Demo.runtime Demo.params
               (Demo.world (quiet :: Demo.sync_fails)) in
  fst run = Throw (Demo.github_error 500)
  ∧ external_calls (trace (snd run))
    = [ EvConnect; EvQuery BEGIN;
        EvQuery (INSERT 7 "abc123" "build ok" "ci/test" 10 1);
        EvQuery (SELECT_latest_runs 7 "abc123");
        EvListComments 7;
        EvCreateComment 7 (@render Demo.runtime "abc123" [Demo.appended 2]);
        EvQuery ROLLBACK; EvEnd ]
  ∧ table (snd run) = [].
Proof. vm_compute. done. Qed.

(** C3. The comment that was written for commit [0ld5ha] is a comment of a
    bot and contains "Automated Workflow Results for commit", so the run for
    commit [abc123] takes it for its own and overwrites it; no comment is
    created for [abc123]. *)
Theorem C3_comment_of_other_commit_is_selected :
  let run := @processWithRetry Demo.runtime Demo.params
               (Demo.world_with_old_comment []) in
  includes (body Demo.comment_of_old_commit) "commit abc123" = false
  ∧ List.find is_bot_comment [Demo.comment_of_old_commit]
    = Some Demo.comment_of_old_commit
  ∧ fst run = Ret tt
  ∧ filter is_sync_call (external_calls (trace (snd run)))
    = [ EvListComments 7;
        EvUpdateComment 55 (@render Demo.runtime "abc123" [Demo.appended 2]) ]
  ∧ comments (snd run)
    = [ {| comment_id := 55; user_type := "Bot";
           body := @render Demo.runtime "abc123" [Demo.appended 2] |} ].
Proof. vm_compute. done. Qed.

(** ** The release of the session *)

Lemma client_end_ends (w : World) :
  count is_end (trace (snd (client_end w))) = S (count is_end (trace w)).
Proof.
  unfold client_end, call. destruct (fault _); simpl; by rewrite count_cons.
Qed.

(** An attempt that returns has closed the session twice: once at the end of
    the [try] block and once more in the [finally] block. *)
Lemma attempt_once_success_ends_twice `{JSRuntime}
    (p : Params) (src : string) (w w' : World) :
  attempt_once p src w = (Ret tt, w') →
  count is_end (trace w') = (count is_end (trace w) + 2)%nat.
Proof.
  unfold attempt_once. intros ([] & w0 & Hconnect & Hsession)%bind_Ret.
  pose proof (same_count_client_connect is_end ltac:(done) w) as Hcount0.
  rewrite Hconnect in Hcount0. unfold same_count in Hcount0. simpl in Hcount0.
  rewrite <- Hcount0. clear Hconnect Hcount0 w. revert Hsession.
  unfold session, try_finally, try_catch.
  destruct (transaction p src w0) as [[[]|e] wt] eqn:Htransaction.
  - pose proof (client_end_ends wt) as Hfinally.
    destruct (client_end wt) as [[[]|e] w5]; [|done]. intros [= <-].
    simpl in Hfinally. rewrite Hfinally.
    unfold transaction in Htransaction.
    apply bind_Ret in Htransaction as (view & w1 & Happend & Hrest).
    apply bind_Ret in Hrest as ([] & w2 & Hsync & Hrest).
    apply bind_Ret in Hrest as (rows & w3 & Hcommit & Hend).
    pose proof (client_end_ends w3) as Hclose. rewrite Hend in Hclose.
    simpl in Hclose. rewrite Hclose.
    pose proof (append_resolve_same_count is_end p src ltac:(done) w0) as Hc1.
    rewrite Happend in Hc1.
    pose proof (external_sync_same_count is_end p
                  (render (pull_request_head_sha (context p)) view)
                  ltac:(done) ltac:(by intros []) w1) as Hc2.
    rewrite Hsync in Hc2.
    pose proof (same_count_client_query is_end COMMIT ltac:(done) w2) as Hc3.
    rewrite Hcommit in Hc3.
    unfold same_count in *. simpl in *. lia.
  - unfold bind, client_query, call.
    destruct (fault _); simpl; by destruct (client_end _) as [[[]|?] ?].
Qed.

(** C6. In a run in which every call succeeds the session is closed twice:
    [client.end()] is called before the [return], and once more by the
    [finally] block. *)
Theorem C6_success_path_closes_twice :
  let run := @processWithRetry Demo.runtime Demo.params (Demo.world []) in
  fst run = Ret tt
  ∧ count is_end (trace (snd run)) = 2%nat
  ∧ external_calls (trace (snd run))
    = [ EvConnect; EvQuery BEGIN;
        EvQuery (INSERT 7 "abc123" "build ok" "ci/test" 10 1);
        EvQuery (SELECT_latest_runs 7 "abc123");
        EvListComments 7;
        EvCreateComment 7 (@render Demo.runtime "abc123" [Demo.appended 2]);
        EvQuery COMMIT; EvEnd; EvEnd ].
Proof. vm_compute. done. Qed.

(** ** The single-writer variant *)

Section legacy.
Variable sql_transaction : M unit.

(** The test [attempt < MAX_RETRIES] of the recursion. *)
Lemma legacy_budget (attempt : Z) :
  attempt < MAX_RETRIES ↔ (0 < Z.to_nat (MAX_RETRIES - attempt))%nat.
Proof. lia. Qed.

(** Whatever the error is, the older controller sleeps
    [RETRY_DELAY * attempt] and tries again while [attempt < MAX_RETRIES]. *)
Lemma legacy_retries_every_error (attempt : Z) (error : js_error) (w w1 : World) :
  sql_transaction w = (Throw error, w1) →
  attempt < MAX_RETRIES →
  ∃ w2,
    Legacy.processWithRetry sql_transaction attempt w
      = Legacy.processWithRetry sql_transaction (attempt + 1) w2
    ∧ hd_error (trace w2) = Some (EvSleep (RETRY_DELAY * attempt))
    ∧ count is_sleep (trace w2) = S (count is_sleep (trace w1)).
Proof.
  intros Hfail Hattempt. unfold Legacy.processWithRetry.
  replace (Z.to_nat (MAX_RETRIES - attempt))
    with (S (Z.to_nat (MAX_RETRIES - (attempt + 1)))) by lia.
  simpl. unfold try_catch at 1. rewrite Hfail. unfold bind at 1.
  destruct (Legacy.code_is error "55P03");
    [|destruct (Legacy.code_is error "40P01");
      [|destruct (Legacy.code_is error "57014")]]; simpl.
  all: eexists; split; [reflexivity|]; simpl; by rewrite !count_cons.
Qed.

(** In the last attempt the error is thrown as it is. *)
Lemma legacy_last_attempt_throws (attempt : Z) (error : js_error) (w w1 : World) :
  sql_transaction w = (Throw error, w1) →
  MAX_RETRIES ≤ attempt →
  ∃ w', Legacy.processWithRetry sql_transaction attempt w = (Throw error, w').
Proof.
  intros Hfail Hattempt. unfold Legacy.processWithRetry.
  replace (Z.to_nat (MAX_RETRIES - attempt)) with 0%nat by lia.
  simpl. unfold try_catch. rewrite Hfail. unfold bind.
  destruct (Legacy.code_is error "55P03");
    [|destruct (Legacy.code_is error "40P01");
      [|destruct (Legacy.code_is error "57014")]]; simpl; by eexists.
Qed.
End legacy.

(** The older query keeps every message of the pull request, in ascending
    order of [created_at]. *)
Lemma legacy_select_messages_spec (prNumber : Z) (rows : list Row) :
  Legacy.select_messages prNumber rows ≡ₚ filter (λ r, pr_number r = prNumber) rows
  ∧ StronglySorted by_created_at (Legacy.select_messages prNumber rows).
Proof.
  unfold Legacy.select_messages. split.
  - apply merge_sort_Permutation.
  - apply StronglySorted_merge_sort; apply _.
Qed.


(** * More of the code *)

(** ** Strings *)

Lemma string_app_nil_l (s : string) : "" +:+ s = s.
Proof. reflexivity. Qed.

Lemma string_app_cons (a : ascii) (s t : string) :
  String a s +:+ t = String a (s +:+ t).
Proof. reflexivity. Qed.

Lemma string_app_nil_r (s : string) : s +:+ "" = s.
Proof. induction s as [|a s IH]; [done|]. by rewrite string_app_cons, IH. Qed.

Lemma string_app_assoc (s t u : string) : (s +:+ t) +:+ u = s +:+ t +:+ u.
Proof. induction s as [|a s IH]; [done|]. by rewrite !string_app_cons, IH. Qed.

Lemma string_app_nonempty (s t : string) : s ≠ "" → s +:+ t ≠ "".
Proof. destruct s; [done|]. by rewrite string_app_cons. Qed.

Lemma prefix_spec (sub s : string) :
  String.prefix sub s = true ↔ ∃ q, s = sub +:+ q.
Proof.
  revert s. induction sub as [|a sub IH]; intros s.
  { split; [|by destruct s]. intros _. by exists s. }
  destruct s as [|b s]; simpl.
  { split; [done|]. by intros [q Hq]. }
  destruct (ascii_dec a b) as [->|Hab].
  - rewrite IH. split; intros [q Hq]; exists q.
    + by rewrite string_app_cons, Hq.
    + rewrite string_app_cons in Hq. by injection Hq.
  - split; [done|]. intros [q Hq]. rewrite string_app_cons in Hq. by injection Hq.
Qed.

(** [includes s sub] holds exactly when [sub] occurs in [s]. *)
Lemma includes_spec (s sub : string) :
  includes s sub = true ↔ ∃ p q, s = p +:+ sub +:+ q.
Proof.
  induction s as [|a s IH].
  - cbn [includes]. rewrite orb_false_r, prefix_spec. split.
    + intros [q Hq]. by exists "", q.
    + intros (p & q & Hpq). destruct p; [by exists q|].
      by rewrite string_app_cons in Hpq.
  - cbn [includes]. rewrite orb_true_iff, prefix_spec, IH. split.
    + intros [[q Hq]|(p & q & Hpq)].
      * by exists "", q.
      * exists (String a p), q. by rewrite string_app_cons, Hpq.
    + intros (p & q & Hpq). destruct p as [|b p].
      * left. by exists q.
      * right. rewrite string_app_cons in Hpq. injection Hpq as _ Hs.
        by exists p, q.
Qed.

Lemma includes_app (p s q sub : string) :
  includes s sub = true → includes (p +:+ s +:+ q) sub = true.
Proof.
  rewrite !includes_spec. intros (p' & q' & ->).
  exists (p +:+ p'), (q' +:+ q). by rewrite !string_app_assoc.
Qed.

Lemma includes_refl (s : string) : includes s s = true.
Proof. apply includes_spec. exists "", "". by rewrite string_app_nil_r. Qed.

Lemma join_cons_cons (sep x y : string) (l : list string) :
  join sep (x :: y :: l) = x +:+ sep +:+ join sep (y :: l).
Proof. reflexivity. Qed.

Lemma includes_join (sep x : string) (l : list string) :
  x ∈ l → includes (join sep l) x = true.
Proof.
  induction l as [|y l IH]; [by inversion 1|].
  rewrite elem_of_cons. intros [->|Hx].
  - destruct l as [|z l]; [apply includes_refl|].
    rewrite join_cons_cons. apply (includes_app "" y), includes_refl.
  - destruct l as [|z l]; [by inversion Hx|].
    rewrite join_cons_cons, <- (string_app_nil_r (join sep (z :: l))).
    rewrite <- string_app_assoc. by apply includes_app, IH.
Qed.

(** ** Source Key Generator: the shape of the key *)

Lemma entry_text_nonempty `{JSRuntime} (kv : string * JSValue) : entry_text kv ≠ "".
Proof.
  unfold entry_text. destruct (fst kv) as [|a k].
  - by rewrite string_app_nil_l, string_app_cons.
  - by rewrite string_app_cons.
Qed.

Lemma join_nonempty (sep : string) (l : list string) :
  l ≠ [] → Forall (λ x, x ≠ "") l → join sep l ≠ "".
Proof.
  destruct l as [|x [|y l]]; [done| |].
  - by intros _ [Hx _]%Forall_cons.
  - intros _ [Hx _]%Forall_cons. rewrite join_cons_cons.
    by apply string_app_nonempty.
Qed.

(** X1. A matrix input that parses to an object with at least one entry,
    whose values the template literal converts without an exception and
    whose texts [key=value] are ASCII, gives the key
    [workflow/job(e1,...,en)], where [e1], ..., [en] are the texts
    [key=value] of the entries in ascending order of strings, and nothing is
    logged. *)
Theorem generateSource_with_entries `{TemplateLiteral}
    (ctx : Context) (input : string) (v : JSValue)
    (entries : list (string * JSValue)) (w : World) :
  input ≠ "" → JSON_parse input = inr v → Object_entries v = inr entries →
  entries ≠ [] →
  Forall (λ kv, ∃ text, template (snd kv) = inr text) entries →
  Forall (λ kv, is_ascii_text (entry_text kv) = true) entries →
  ∃ texts,
    texts ≡ₚ entry_text <$> entries
    ∧ Forall (λ kv, template (snd kv) = inr (ToString (snd kv))) entries
    ∧ Forall (λ text, is_ascii_text text = true) texts
    ∧ Sorted string_le texts
    ∧ generateSource ctx input w
      = (Ret (unsuffixed ctx +:+ "(" +:+ join "," texts +:+ ")"), w).
Proof.
  intros Hinput Hparse Hentries Hnonempty Hconverts Hascii.
  exists (sort (entry_text <$> entries)).
  assert (sort (entry_text <$> entries) ≡ₚ entry_text <$> entries) as Hperm
    by apply merge_sort_Permutation.
  split_and!; [done| | |apply Sorted_merge_sort, _|].
  - eapply Forall_impl; [exact Hconverts|]. intros kv [text Htext].
    by rewrite (template_ToString _ _ Htext).
  - rewrite Hperm. by apply Forall_fmap.
  - unfold generateSource, bind, try_catch, lift.
    rewrite if_nonempty by done. rewrite Hparse. simpl. rewrite Hentries. simpl.
    change (map (λ kv : string * JSValue, kv.1 +:+ "=" +:+ ToString kv.2) entries)
      with (entry_text <$> entries).
    rewrite if_nonempty.
    + unfold ret, unsuffixed. by rewrite !string_app_assoc.
    + apply join_nonempty.
      * intros Hnil. rewrite Hnil in Hperm. symmetry in Hperm.
        apply Permutation_nil_r in Hperm. by destruct entries.
      * rewrite Hperm. apply Forall_fmap, Forall_forall. intros kv _.
        apply entry_text_nonempty.
Qed.

Lemma generateSource_with_entries_witness :
  ∃ texts,
    texts ≡ₚ ["b=2"; "a=1"]
    ∧ Sorted string_le texts
    ∧ @generateSource Demo.runtime Demo.ctx Demo.matrix_ba (Demo.world [])
      = (Ret ("ci/test" +:+ "(" +:+ join "," texts +:+ ")"), Demo.world []).
Proof.
  destruct (@generateSource_with_entries Demo.runtime Samples.template_literal
              Demo.ctx Demo.matrix_ba
              (Demo.JsonObject [("b", Demo.JsonNumber 2); ("a", Demo.JsonNumber 1)])
              [("b", Demo.JsonNumber 2); ("a", Demo.JsonNumber 1)] (Demo.world []))
    as (texts & Hperm & _ & _ & Hsorted & Hkey);
    [discriminate | reflexivity | reflexivity | discriminate | | |].
  - repeat constructor; eexists; reflexivity.
  - repeat constructor.
  - exists texts. split; [exact Hperm|]. split; [exact Hsorted|exact Hkey].
Defined.

(** X2. A matrix input that parses to an object without entries gives the
    key without parentheses, [workflow/job], and nothing is logged. *)
Theorem generateSource_without_entries `{JSRuntime}
    (ctx : Context) (input : string) (v : JSValue) (w : World) :
  JSON_parse input = inr v → Object_entries v = inr [] →
  generateSource ctx input w = (Ret (unsuffixed ctx), w).
Proof.
  intros Hparse Hentries. unfold generateSource, bind, try_catch, lift.
  destruct (negb (String.eqb input "")); [|done].
  rewrite Hparse. simpl. by rewrite Hentries.
Qed.

Lemma generateSource_without_entries_witness :
  @generateSource Samples.runtime Demo.ctx "{}" (Demo.world [])
  = (Ret "ci/test", Demo.world []).
Proof.
  apply (@generateSource_without_entries Samples.runtime Demo.ctx "{}"
           (Demo.JsonObject []) (Demo.world [])); reflexivity.
Defined.

(** ** Merge Renderer *)

Lemma includes_trans (s t u : string) :
  includes s t = true → includes t u = true → includes s u = true.
Proof.
  rewrite !includes_spec. intros (p & q & ->) (p' & q' & ->).
  exists (p +:+ p'), (q' +:+ q). by rewrite !string_app_assoc.
Qed.

Lemma string_app_length (s t : string) :
  String.length (s +:+ t) = (String.length s + String.length t)%nat.
Proof. induction s as [|a s IH]; [done|]. rewrite string_app_cons. simpl. by rewrite IH. Qed.

Lemma is_millis_suffix_length (s : string) :
  is_millis_suffix s = true → String.length s = 5%nat.
Proof. by destruct s as [|? [|? [|? [|? [|? [|? ?]]]]]]. Qed.

(** The pattern [\.\d{3}Z$] matches at the end only: whatever comes before
    the milliseconds is kept. *)
Lemma replace_millis_suffix_app (by_ s : string) (d1 d2 d3 : ascii) :
  is_digit d1 = true → is_digit d2 = true → is_digit d3 = true →
  replace_millis_suffix by_ (s +:+ String "." (String d1 (String d2 (String d3 "Z"))))
  = s +:+ by_.
Proof.
  intros H1 H2 H3. induction s as [|a s IH].
  - rewrite !string_app_nil_l. cbn [replace_millis_suffix is_millis_suffix].
    by rewrite H1, H2, H3.
  - rewrite !string_app_cons. cbn [replace_millis_suffix].
    destruct (is_millis_suffix _) eqn:Hmatch.
    + apply is_millis_suffix_length in Hmatch. simpl in Hmatch.
      rewrite string_app_length in Hmatch. simpl in Hmatch. lia.
    + by rewrite IH.
Qed.

(** [replace('T', ' ')] replaces the first [T] only. *)
Lemma replace_first_app (c : ascii) (by_ s t : string) :
  c ∉ list_ascii_of_string s →
  replace_first c by_ (s +:+ String c t) = s +:+ by_ +:+ t.
Proof.
  induction s as [|a s IH]; intros Hc.
  - rewrite !string_app_nil_l. simpl. by rewrite Ascii.eqb_refl.
  - simpl in Hc. apply not_elem_of_cons in Hc as [Hac Hc].
    rewrite !string_app_cons. simpl.
    destruct (Ascii.eqb_spec a c) as [->|_]; [done|]. by rewrite IH.
Qed.

(** X3. When the ISO text of [created_at] is [dateTtime.mmmZ], a record is
    rendered as a [<details>] block whose summary shows [date time UTC] (the
    [T] replaced by a blank, the milliseconds and the [Z] by [ UTC]) and the
    source key, followed by the run, the attempt and the message. *)
Theorem render_section_timestamp `{JSRuntime}
    (n : Row) (date time : string) (d1 d2 d3 : ascii) :
  Date_toISOString (created_at n)
    = date +:+ String "T" (time +:+ String "." (String d1 (String d2 (String d3 "Z")))) →
  "T"%char ∉ list_ascii_of_string date →
  is_digit d1 = true → is_digit d2 = true → is_digit d3 = true →
  render_section n
  = join nl
      [ "<details>";
        "<summary>Message from " +:+ (date +:+ " " +:+ time +:+ " UTC")
          +:+ " (" +:+ source n +:+ ")</summary>";
        "";
        "Run ID: " +:+ pretty (run_id n) +:+ ", Attempt: " +:+ pretty (run_attempt n);
        "";
        message n;
        "</details>" ].
Proof.
  intros Hiso Hdate H1 H2 H3. unfold render_section. rewrite Hiso.
  rewrite replace_first_app by done.
  rewrite <- !string_app_assoc. rewrite replace_millis_suffix_app by done.
  by rewrite !string_app_assoc.
Qed.

Lemma render_section_timestamp_witness :
  @render_section Demo.runtime (Demo.appended 2)
  = join nl
      [ "<details>";
        "<summary>Message from " +:+ ("2024-05-01" +:+ " " +:+ "12:00:00" +:+ " UTC")
          +:+ " (" +:+ "ci/test" +:+ ")</summary>";
        "";
        "Run ID: " +:+ pretty 10 +:+ ", Attempt: " +:+ pretty 1;
        "";
        "build ok";
        "</details>" ].
Proof.
  apply (@render_section_timestamp Demo.runtime (Demo.appended 2)
           "2024-05-01" "12:00:00" "0" "0" "0");
    [reflexivity | | reflexivity | reflexivity | reflexivity].
  simpl. rewrite !not_elem_of_cons. split_and!; [done..|]. apply not_elem_of_nil.
Defined.

(** The document names the commit after the marker that [is_bot_comment]
    looks for. *)
Lemma render_includes_marker `{JSRuntime} (commitSha : string) (rows : list Row) :
  includes (render commitSha rows) "Automated Workflow Results for commit" = true.
Proof.
  unfold render. eapply includes_trans.
  - apply includes_join. by left.
  - apply includes_spec. exists "### ", (" " +:+ commitSha). reflexivity.
Qed.

(** X4. The document contains, for every record of the view, its message
    verbatim and its source key, and it names the commit. *)
Theorem render_includes_records `{JSRuntime} (commitSha : string) (rows : list Row) :
  includes (render commitSha rows)
           ("Automated Workflow Results for commit " +:+ commitSha) = true
  ∧ ∀ r, r ∈ rows →
      includes (render commitSha rows) (message r) = true
      ∧ includes (render commitSha rows) ("(" +:+ source r +:+ ")") = true.
Proof.
  split.
  - unfold render. eapply includes_trans.
    + apply includes_join. by left.
    + apply includes_spec. exists "### ", "". by rewrite string_app_nil_r.
  - intros r Hr.
    assert (includes (render commitSha rows) (render_section r) = true) as Hsection.
    { unfold render. eapply includes_trans.
      - apply includes_join. do 2 right. by left.
      - apply includes_join. apply list_elem_of_In, in_map, list_elem_of_In, Hr. }
    split; (eapply includes_trans; [exact Hsection|]); unfold render_section.
    + apply includes_join. do 5 right. by left.
    + eapply includes_trans; [apply includes_join; right; by left|].
      set (timestamp := replace_millis_suffix _ _).
      apply includes_spec.
      exists ("<summary>Message from " +:+ timestamp +:+ " "), "</summary>".
      rewrite !string_app_assoc. reflexivity.
Qed.

Lemma render_includes_records_witness :
  includes (@render Demo.runtime "abc123" [Demo.appended 2]) "build ok" = true
  ∧ includes (@render Demo.runtime "abc123" [Demo.appended 2]) "(ci/test)" = true.
Proof.
  apply (proj2 (@render_includes_records Demo.runtime "abc123" [Demo.appended 2])
           (Demo.appended 2)).
  by left.
Defined.

(** ** External Sync *)

(** What [external_sync] does to the comments of the pull request: nothing
    when it throws; otherwise the first comment of the first page that
    [is_bot_comment] accepts gets the new body, or, when there is none, a
    comment is added at the end. *)
Lemma external_sync_inv (p : Params) (new_body : string) (w w' : World)
    (r : outcome unit) :
  external_sync p new_body w = (r, w') →
  actor_type w' = actor_type w
  ∧ ((∃ e, r = Throw e)
       ∧ comments w' = comments w ∧ next_comment w' = next_comment w
     ∨ r = Ret tt
       ∧ match List.find is_bot_comment (first_page w) with
         | Some c =>
             comments w' = with_body (comment_id c) new_body <$> comments w
             ∧ next_comment w' = next_comment w
         | None =>
             comments w' = comments w ++ [created_comment w new_body]
             ∧ next_comment w' = next_comment w + 1
         end).
Proof.
  unfold external_sync, listComments, updateComment, createComment, first_page.
  unfold bind, try_catch, call, core_error, throw.
  destruct (fault (hd quiet (plan w))) as [e|]; simpl.
  { intros [= <- <-]. split; [done|]. left. eauto. }
  destruct (List.find is_bot_comment (take 100 (comments w))) as [c|]; simpl.
  - destruct (fault (hd quiet (tl (plan w)))) as [e|]; simpl.
    + intros [= <- <-]. split; [done|]. left. eauto.
    + intros [= <- <-]. split; [done|]. by right.
  - destruct (fault (hd quiet (tl (plan w)))) as [e|]; simpl.
    + intros [= <- <-]. split; [done|]. left. eauto.
    + intros [= <- <-]. split; [done|]. by right.
Qed.

(** X5. One sync lists the comments once and writes at most once: it never
    both updates and creates.  When it returns it has written exactly once;
    when it throws, no comment of the pull request has changed. *)
Theorem external_sync_writes_once
    (p : Params) (new_body : string) (w w' : World) (r : outcome unit) :
  external_sync p new_body w = (r, w') →
  count is_list (trace w') = S (count is_list (trace w))
  ∧ (count is_write (trace w') ≤ S (count is_write (trace w)))%nat
  ∧ (r = Ret tt → count is_write (trace w') = S (count is_write (trace w)))
  ∧ (∀ e, r = Throw e → comments w' = comments w).
Proof.
  intros Hsync. split_and!; [| | |].
  4: { intros e ->. destruct (external_sync_inv _ _ _ _ _ Hsync) as [_ [H|H]].
       - by destruct H as (_ & ? & _).
       - by destruct H as [[=] _]. }
  all: revert Hsync.
  all: unfold external_sync, listComments, updateComment, createComment.
  all: unfold bind, try_catch, call, core_error, throw.
  all: destruct (fault (hd quiet (plan w))) as [e|]; simpl;
         [intros [= <- <-]; simpl; rewrite ?count_cons; simpl; done || lia|].
  all: destruct (List.find is_bot_comment (take 100 (comments w))) as [c|]; simpl.
  all: destruct (fault (hd quiet (tl (plan w)))) as [e|]; simpl.
  all: intros [= <- <-]; simpl; rewrite ?count_cons; simpl; done || lia.
Qed.

Lemma external_sync_writes_once_witness :
  ∃ w', external_sync Demo.params "text" (Demo.world_with_old_comment [])
        = (Ret tt, w')
        ∧ count is_write (trace w') = 1%nat.
Proof.
  eexists. split; [vm_compute; reflexivity|].
  refine (proj1 (proj2 (proj2 (external_sync_writes_once Demo.params "text"
                                 (Demo.world_with_old_comment []) _ (Ret tt) _))) eq_refl).
  vm_compute. reflexivity.
Defined.

Lemma find_is_bot_comment_Some (l : list Comment) (c : Comment) :
  c ∈ l → is_bot_comment c = true → is_Some (List.find is_bot_comment l).
Proof.
  intros Hc Hbot. destruct (List.find is_bot_comment l) eqn:Hfind; [done|].
  apply list_elem_of_In in Hc.
  pose proof (List.find_none _ _ Hfind c Hc). congruence.
Qed.

Lemma find_is_bot_comment_elem_of (l : list Comment) (c : Comment) :
  List.find is_bot_comment l = Some c → c ∈ l ∧ is_bot_comment c = true.
Proof. intros [Hc Hbot]%List.find_some. by rewrite list_elem_of_In. Qed.

Lemma first_page_subseteq (w : World) (c : Comment) : c ∈ first_page w → c ∈ comments w.
Proof. unfold first_page. apply subseteq_take. Qed.

(** X6. A sync leaves alone every comment that [is_bot_comment] rejects
    (one that is not by a bot, or without the marker), as long as comments
    have distinct ids: such a comment is still there afterwards, as it was. *)
Theorem external_sync_keeps_other_comments
    (p : Params) (new_body : string) (w w' : World) (r : outcome unit) (c0 : Comment) :
  NoDup (comment_id <$> comments w) →
  external_sync p new_body w = (r, w') →
  c0 ∈ comments w → is_bot_comment c0 = false →
  c0 ∈ comments w'.
Proof.
  intros Hids Hsync Hc0 Hother.
  destruct (external_sync_inv _ _ _ _ _ Hsync) as [_ [(_ & -> & _)|[_ Hdone]]]; [done|].
  destruct (List.find is_bot_comment (first_page w)) as [c|] eqn:Hfind.
  - destruct Hdone as [-> _].
    apply find_is_bot_comment_elem_of in Hfind as [Hc%first_page_subseteq Hbot].
    apply list_elem_of_fmap. exists c0. split; [|done].
    unfold with_body. case_decide as Hid; [|done].
    assert (c0 = c) as ->; [|congruence].
    apply list_elem_of_lookup in Hc0 as [i Hi], Hc as [j Hj].
    assert (i = j) as ->; [|congruence].
    eapply NoDup_lookup; [exact Hids| |]; rewrite list_lookup_fmap.
    + by rewrite Hi.
    + rewrite Hj. simpl. by rewrite Hid.
  - destruct Hdone as [-> _]. apply elem_of_app. by left.
Qed.

Lemma external_sync_keeps_other_comments_witness :
  ∃ r w',
    external_sync Demo.params "text"
      (set_comments [mk_Comment 1 "User" "Automated Workflow Results for commit abc123";
                     Demo.comment_of_old_commit] 100 (Demo.world []))
    = (r, w')
    ∧ mk_Comment 1 "User" "Automated Workflow Results for commit abc123" ∈ comments w'.
Proof.
  eexists _, _. split; [vm_compute; reflexivity|].
  eapply (external_sync_keeps_other_comments Demo.params "text"
            (set_comments [mk_Comment 1 "User" "Automated Workflow Results for commit abc123";
                           Demo.comment_of_old_commit] 100 (Demo.world []))).
  - simpl. apply NoDup_cons. split; [|apply NoDup_singleton].
    rewrite list_elem_of_singleton. discriminate.
  - vm_compute. reflexivity.
  - by left.
  - reflexivity.
Defined.

(** X7. Two syncs in a row, by a bot, on a pull request with fewer than 100
    comments: whatever the first one did, the second one finds a comment to
    update, so it adds none, and afterwards a comment on the first page has
    the second document as its body. *)
Theorem external_sync_twice_updates `{JSRuntime}
    (p : Params) (commitSha : string) (rows1 : list Row) (body2 : string)
    (w w1 w2 : World) :
  actor_type w = "Bot" →
  (length (comments w) < 100)%nat →
  external_sync p (render commitSha rows1) w = (Ret tt, w1) →
  external_sync p body2 w1 = (Ret tt, w2) →
  length (comments w2) = length (comments w1)
  ∧ (length (comments w1) ≤ S (length (comments w)))%nat
  ∧ ∃ c, c ∈ first_page w2 ∧ user_type c = "Bot" ∧ body c = body2.
Proof.
  intros Hbot Hfew Hsync1 Hsync2.
  destruct (external_sync_inv _ _ _ _ _ Hsync1) as [_ [([e [=]] & _)|[_ Hdone1]]].
  destruct (external_sync_inv _ _ _ _ _ Hsync2) as [_ [([e [=]] & _)|[_ Hdone2]]].
  assert (is_Some (List.find is_bot_comment (first_page w1))) as [c1 Hfind1].
  { destruct (List.find is_bot_comment (first_page w)) as [c|] eqn:Hfind.
    - destruct Hdone1 as [Hcomments _].
      apply find_is_bot_comment_elem_of in Hfind as [Hc Hc_bot].
      apply (find_is_bot_comment_Some _ (with_body (comment_id c) (render commitSha rows1) c)).
      + unfold first_page. rewrite Hcomments, <- fmap_take. by apply list_elem_of_fmap_2.
      + unfold with_body. rewrite decide_True by done.
        unfold is_bot_comment in *. simpl.
        apply andb_true_iff in Hc_bot as [Htype _]. rewrite Htype.
        exact (render_includes_marker commitSha rows1).
    - destruct Hdone1 as [Hcomments _].
      apply (find_is_bot_comment_Some _ (created_comment w (render commitSha rows1))).
      + unfold first_page. rewrite Hcomments, take_ge.
        * apply elem_of_app. right. by left.
        * rewrite length_app. simpl. lia.
      + unfold is_bot_comment, created_comment. simpl. rewrite Hbot.
        exact (render_includes_marker commitSha rows1). }
  rewrite Hfind1 in Hdone2. destruct Hdone2 as [Hcomments2 _].
  apply find_is_bot_comment_elem_of in Hfind1 as [Hc1 Hc1_bot].
  split_and!.
  - by rewrite Hcomments2, length_fmap.
  - destruct (List.find is_bot_comment (first_page w)); destruct Hdone1 as [-> _].
    + rewrite length_fmap. lia.
    + rewrite length_app. simpl. lia.
  - exists (with_body (comment_id c1) body2 c1). split_and!.
    + unfold first_page. rewrite Hcomments2, <- fmap_take. by apply list_elem_of_fmap_2.
    + unfold with_body. rewrite decide_True by done. simpl.
      unfold is_bot_comment in Hc1_bot. apply andb_true_iff in Hc1_bot as [Htype _].
      by apply String.eqb_eq in Htype.
    + unfold with_body. by rewrite decide_True.
Qed.

Lemma external_sync_twice_updates_witness :
  let w1 := snd (external_sync Demo.params
                   (@render Demo.runtime "abc123" [Demo.appended 2]) (Demo.world [])) in
  let w2 := snd (external_sync Demo.params "second document" w1) in
  length (comments w1) = 1%nat ∧ length (comments w2) = 1%nat.
Proof.
  intros w1 w2.
  destruct (@external_sync_twice_updates Demo.runtime Demo.params "abc123"
              [Demo.appended 2] "second document" (Demo.world []) w1 w2)
    as (Hsame & _ & _);
    [reflexivity | simpl; lia | vm_compute; reflexivity | vm_compute; reflexivity |].
  rewrite Hsame. split; vm_compute; reflexivity.
Defined.

(** X8. Only the first 100 comments are listed.  On a pull request that has
    100 comments or more, none of the first 100 being accepted by
    [is_bot_comment], a sync adds a comment at the end, and the next listing
    does not show it either: the next sync will add one more. *)
Theorem external_sync_beyond_first_page
    (p : Params) (new_body : string) (w w' : World) :
  (100 ≤ length (comments w))%nat →
  List.find is_bot_comment (first_page w) = None →
  external_sync p new_body w = (Ret tt, w') →
  comments w' = comments w ++ [created_comment w new_body]
  ∧ List.find is_bot_comment (first_page w') = None.
Proof.
  intros Hmany Hnone Hsync.
  destruct (external_sync_inv _ _ _ _ _ Hsync) as [_ [([e [=]] & _)|[_ Hdone]]].
  rewrite Hnone in Hdone. destruct Hdone as [Hcomments _].
  split; [done|]. unfold first_page in *. by rewrite Hcomments, take_app_le.
Qed.

Lemma external_sync_beyond_first_page_witness :
  let w := set_comments
             (replicate 100 (mk_Comment 1 "User" "looks good") ++
              [mk_Comment 2 "Bot" "### Automated Workflow Results for commit abc123"])
             3 (Demo.world []) in
  let w' := snd (external_sync Demo.params "text" w) in
  length (comments w') = 102%nat
  ∧ List.find is_bot_comment (first_page w') = None.
Proof.
  intros w w'.
  destruct (external_sync_beyond_first_page Demo.params "text" w w')
    as [Hcomments Hnone];
    [vm_compute; lia | vm_compute; reflexivity | vm_compute; reflexivity |].
  split; [|exact Hnone]. rewrite Hcomments. vm_compute. reflexivity.
Defined.

(** ** What an attempt commits *)

Lemma committed_refl (w : World) : committed [] w w.
Proof. exists 0%nat. by rewrite drop_0, take_0, !app_nil_r. Qed.

Lemma committed_trans (own1 own2 : list Row) (w1 w2 w3 : World) :
  committed own1 w1 w2 → committed own2 w2 w3 → committed (own1 ++ own2) w1 w3.
Proof.
  intros (n1 & Hplan1 & Htable1) (n2 & Hplan2 & Htable2).
  exists (n1 + n2)%nat. split.
  - by rewrite Hplan2, Hplan1, drop_drop.
  - rewrite Htable2, Htable1, Hplan1, <- take_take_drop, fmap_app, concat_app.
    rewrite <- !app_assoc. do 2 f_equiv.
    rewrite !app_assoc. f_equiv. apply Permutation_app_comm.
Qed.

Lemma others_committed_committed (w w' : World) :
  others_committed w w' → committed [] w w'.
Proof. intros (n & Hplan & Htable). exists n. by rewrite Htable, app_nil_r. Qed.

Lemma committed_nil_l (own : list Row) (w1 w2 w3 : World) :
  others_committed w1 w2 → committed own w2 w3 → committed own w1 w3.
Proof.
  intros H12%others_committed_committed H23.
  exact (committed_trans [] own _ _ _ H12 H23).
Qed.

Lemma committed_nil_r (own : list Row) (w1 w2 w3 : World) :
  committed own w1 w2 → others_committed w2 w3 → committed own w1 w3.
Proof.
  intros H12 H23%others_committed_committed.
  pose proof (committed_trans own [] _ _ _ H12 H23) as H. by rewrite app_nil_r in H.
Qed.

Lemma commits_only_refl (p : Params) (src : string) (w : World) :
  commits_only p src [] w w.
Proof. split_and!; [apply committed_refl|done|simpl; lia]. Qed.

Lemma commits_only_trans (p : Params) (src : string) (own1 own2 : list Row)
    (w1 w2 w3 : World) :
  commits_only p src own1 w1 w2 → commits_only p src own2 w2 w3 →
  commits_only p src (own1 ++ own2) w1 w3.
Proof.
  intros (Hc1 & Ha1 & Hn1) (Hc2 & Ha2 & Hn2). split_and!.
  - by eapply committed_trans.
  - by apply Forall_app.
  - rewrite length_app. lia.
Qed.

(** A piece that commits nothing of ours and sends no [COMMIT]. *)
Lemma commits_only_quiet (p : Params) (src : string) (w w' : World) :
  others_committed w w' → same_count is_commit w w' → commits_only p src [] w w'.
Proof.
  intros Hothers Hcount. split_and!; [by apply others_committed_committed|done|].
  unfold same_count in Hcount. simpl. lia.
Qed.

Lemma others_committed_core_info (msg : string) : respects others_committed (core_info msg).
Proof. intros w. by apply others_committed_same. Qed.

Lemma others_committed_core_warning (msg : string) :
  respects others_committed (core_warning msg).
Proof. intros w. by apply others_committed_same. Qed.

Lemma others_committed_sleep (ms : Z) : respects others_committed (sleep ms).
Proof. intros w. by apply others_committed_same. Qed.

Ltac respects_others :=
  repeat first
    [ apply others_committed_core_info | apply others_committed_core_warning
    | apply others_committed_sleep | respects_step ].

Lemma on_error_others_committed (attempt : Z) (error : js_error) :
  respects others_committed (on_error attempt error).
Proof. unfold on_error, fail_database_error. respects_others. Qed.

Lemma generateSource_others_committed `{JSRuntime} (ctx : Context) (input : string) :
  respects others_committed (generateSource ctx input).
Proof. unfold generateSource. respects_others. Qed.

(** Whatever [append_resolve] does, it commits nothing; when it returns, the
    open transaction holds the appended row and nothing else. *)
Lemma append_resolve_any (p : Params) (src : string) (w w' : World)
    (r : outcome (list Row)) :
  append_resolve p src w = (r, w') →
  others_committed w w'
  ∧ (∀ view, r = Ret view →
       ∃ row start, is_appended_row p src row ∧ tx w' = Some (mk_Tx start [row])).
Proof.
  unfold append_resolve, client_query, bind, call.
  destruct (fault (hd quiet (plan w))) as [e|]; simpl.
  { intros [= <- <-]. split; [apply others_committed_env_step|done]. }
  destruct (fault (hd quiet (tl (plan w)))) as [e|]; simpl.
  { intros [= <- <-]. split; [|done]. exists 2%nat. simpl.
    destruct (plan w) as [|s1 [|s2 pl]]; simpl;
      by rewrite ?drop_0, ?take_0, ?app_nil_r, <- ?app_assoc. }
  destruct (fault (hd quiet (tl (tl (plan w))))) as [e|]; simpl.
  all: intros [= <- <-]; split.
  all: try (exists 3%nat; simpl;
            destruct (plan w) as [|s1 [|s2 [|s3 pl]]]; simpl;
            by rewrite ?drop_0, ?take_0, ?app_nil_r, <- ?app_assoc).
  - done.
  - intros view _. eexists _, _. split; [|reflexivity]. by unfold is_appended_row.
Qed.

Lemma external_sync_tx (p : Params) (new_body : string) (w w' : World)
    (r : outcome unit) :
  external_sync p new_body w = (r, w') → tx w' = tx w.
Proof.
  unfold external_sync, listComments, updateComment, createComment.
  unfold bind, try_catch, call, core_error, throw.
  destruct (fault (hd quiet (plan w))) as [e|]; simpl; [by intros [= <- <-]|].
  destruct (List.find is_bot_comment (take 100 (comments w))) as [c|]; simpl;
    destruct (fault (hd quiet (tl (plan w)))) as [e|]; simpl; by intros [= <- <-].
Qed.

(** [COMMIT] is counted when it is sent; when it succeeds it commits the
    rows of the open transaction. *)
Lemma client_query_COMMIT_commits (row : Row) (start : Z) (w w' : World)
    (r : outcome (list Row)) :
  tx w = Some (mk_Tx start [row]) →
  client_query COMMIT w = (r, w') →
  count is_commit (trace w') = S (count is_commit (trace w))
  ∧ ((∃ e, r = Throw e) ∧ others_committed w w'
     ∨ (∃ rows, r = Ret rows) ∧ committed [row] w w').
Proof.
  intros Htx. unfold client_query, call.
  destruct (fault (hd quiet (plan w))) as [e|]; simpl.
  - intros [= <- <-]. simpl. rewrite count_cons. simpl. split; [done|].
    left. split; [by eexists|apply others_committed_env_step].
  - intros [= <- <-]. simpl. rewrite count_cons. simpl. split; [done|].
    right. split; [by eexists|]. rewrite Htx. simpl.
    exists 1%nat. simpl.
    destruct (plan w) as [|s1 pl]; simpl;
      by rewrite ?drop_0, ?take_0, ?app_nil_r, <- ?app_assoc.
Qed.

Lemma transaction_commits `{JSRuntime} (p : Params) (src : string) (w w' : World)
    (r : outcome unit) :
  transaction p src w = (r, w') →
  ∃ own,
    commits_only p src own w w'
    ∧ (length own ≤ 1)%nat
    ∧ (count is_commit (trace w') ≤ S (count is_commit (trace w)))%nat
    ∧ (r = Ret tt → own ≠ []).
Proof.
  unfold transaction, bind.
  destruct (append_resolve p src w) as [[view|e] w1] eqn:Happend.
  2: { intros [= <- <-].
       destruct (append_resolve_any _ _ _ _ _ Happend) as [Hothers _].
       pose proof (append_resolve_same_count is_commit p src ltac:(by intros []) w)
         as Hcount. rewrite Happend in Hcount.
       exists []. split_and!; [by apply commits_only_quiet|simpl; lia| |done].
       unfold same_count in Hcount. simpl in Hcount. lia. }
  destruct (append_resolve_any _ _ _ _ _ Happend) as [Hothers1 Hopen].
  destruct (Hopen view eq_refl) as (row & start & Hrow & Htx1). clear Hopen.
  pose proof (append_resolve_same_count is_commit p src ltac:(by intros []) w) as Hcount1.
  rewrite Happend in Hcount1. unfold same_count in Hcount1. simpl in Hcount1.
  set (document := render (pull_request_head_sha (context p)) view).
  destruct (external_sync p document w1) as [[[]|e] w2] eqn:Hsync.
  all: pose proof (external_sync_others_committed p document w1) as Hothers2.
  all: pose proof (external_sync_same_count is_commit p document
                     ltac:(done) ltac:(by intros []) w1) as Hcount2.
  all: rewrite Hsync in Hothers2, Hcount2; simpl in Hothers2, Hcount2.
  all: unfold same_count in Hcount2.
  2: { intros [= <- <-]. exists [].
       split_and!; [apply commits_only_quiet|simpl; lia|lia|done].
       - by etrans.
       - unfold same_count. lia. }
  pose proof (external_sync_tx _ _ _ _ _ Hsync) as Htx2. rewrite Htx1 in Htx2.
  destruct (client_query COMMIT w2) as [[rows|e] w3] eqn:Hcommit.
  all: destruct (client_query_COMMIT_commits row start _ _ _ Htx2 Hcommit)
         as [Hcount3 [[[e' Heq] Hothers3]|[[rows' Heq] Hcommitted3]]];
    try discriminate Heq; clear Heq.
  - destruct (client_end w3) as [r4 w4] eqn:Hend. intros [= <- <-].
    pose proof (others_committed_client_end w3) as Hothers4.
    pose proof (same_count_client_end is_commit ltac:(done) w3) as Hcount4.
    rewrite Hend in Hothers4, Hcount4. simpl in Hothers4, Hcount4.
    unfold same_count in Hcount4.
    exists [row]. split_and!; [split_and!| simpl; lia | lia | done].
    + eapply committed_nil_r; [|exact Hothers4].
      eapply committed_nil_l; [|exact Hcommitted3]. by etrans.
    + by apply Forall_singleton.
    + simpl. lia.
  - intros [= <- <-]. exists []. split_and!; [split_and!|simpl; lia|lia|done].
    + apply others_committed_committed. by do 2 (etrans; [|done]).
    + done.
    + simpl. lia.
Qed.

Lemma commits_only_then_quiet (p : Params) (src : string) (own : list Row)
    (w1 w2 w3 : World) :
  commits_only p src own w1 w2 →
  others_committed w2 w3 → same_count is_commit w2 w3 →
  commits_only p src own w1 w3.
Proof.
  intros Hfirst Hothers Hcount.
  pose proof (commits_only_trans p src own [] w1 w2 w3 Hfirst
                (commits_only_quiet p src w2 w3 Hothers Hcount)) as Hboth.
  by rewrite app_nil_r in Hboth.
Qed.

Lemma attempt_once_commits `{JSRuntime} (p : Params) (src : string) (w w' : World)
    (r : outcome unit) :
  attempt_once p src w = (r, w') →
  ∃ own,
    commits_only p src own w w'
    ∧ (length own ≤ 1)%nat
    ∧ (r = Ret tt → own ≠ []).
Proof.
  unfold attempt_once, bind.
  pose proof (respects_call others_committed EvConnect (λ w, (tt, w))
                (others_committed_env_step EvConnect)
                ltac:(by intros; apply others_committed_same) w) as Hothers0.
  pose proof (same_count_client_connect is_commit ltac:(done) w) as Hcount0.
  fold client_connect in Hothers0.
  destruct (client_connect w) as [[[]|e] w0] eqn:Hconnect;
    simpl in Hothers0, Hcount0.
  2: { intros [= <- <-]. exists []. split_and!; [|simpl; lia|done].
       by apply commits_only_quiet. }
  unfold session, try_finally, try_catch.
  destruct (transaction p src w0) as [rt wt] eqn:Htransaction.
  destruct (transaction_commits _ _ _ _ _ Htransaction)
    as (own & Hown & Hlen & _ & Hret).
  assert (commits_only p src own w wt) as Hown'.
  { pose proof (commits_only_trans p src [] own w w0 wt
                  (commits_only_quiet p src w w0 Hothers0 Hcount0) Hown). done. }
  destruct rt as [[]|e].
  - pose proof (others_committed_client_end wt) as Hothers5.
    pose proof (same_count_client_end is_commit ltac:(done) wt) as Hcount5.
    destruct (client_end wt) as [[[]|e] w5]; simpl in *; intros [= <- <-].
    all: exists own; split_and!; [by eapply commits_only_then_quiet|done|auto].
  - pose proof (others_committed_ROLLBACK wt) as Hothers4.
    pose proof (same_count_client_query is_commit ROLLBACK ltac:(done) wt) as Hcount4.
    unfold bind at 1. destruct (client_query ROLLBACK wt) as [[rows|e4] w4];
      simpl in Hothers4, Hcount4.
    all: pose proof (others_committed_client_end w4) as Hothers5.
    all: pose proof (same_count_client_end is_commit ltac:(done) w4) as Hcount5.
    all: unfold throw; destruct (client_end w4) as [[[]|e5] w5];
           simpl in Hothers5, Hcount5; intros [= <- <-].
    all: exists own; split_and!; [|done|done].
    all: eapply commits_only_then_quiet; [|exact Hothers5|exact Hcount5].
    all: by eapply commits_only_then_quiet.
Qed.

Lemma retry_loop_commits `{JSRuntime} (p : Params) (src : string) (n : nat)
    (attempt : Z) (w w' : World) (r : outcome unit) :
  retry_loop p src n attempt w = (r, w') →
  ∃ own, commits_only p src own w w' ∧ (r = Ret tt → own ≠ []).
Proof.
  revert attempt w. induction n as [|n IH]; intros attempt w; simpl.
  { intros [= <- <-]. exists []. split; [apply commits_only_refl|done]. }
  unfold try_catch.
  destruct (attempt_once p src w) as [[[]|e] w1] eqn:Hattempt.
  all: destruct (attempt_once_commits _ _ _ _ _ Hattempt) as (own1 & Hown1 & _ & Hret1).
  { intros [= <- <-]. exists own1. auto. }
  unfold bind.
  pose proof (on_error_others_committed attempt e w1) as Hothers2.
  pose proof (on_error_same_count is_commit attempt e
                ltac:(done) ltac:(done) ltac:(done) w1) as Hcount2.
  destruct (on_error attempt e w1) as [[[]|e2] w2]; simpl in Hothers2, Hcount2.
  - intros Hloop. destruct (IH _ _ Hloop) as (own3 & Hown3 & Hret3).
    exists (own1 ++ own3). split.
    + eapply commits_only_trans; [|exact Hown3]. by eapply commits_only_then_quiet.
    + intros Hr. specialize (Hret3 Hr). by destruct own1, own3.
  - intros [= <- <-]. exists own1. split; [by eapply commits_only_then_quiet|done].
Qed.

Lemma generateSource_returns `{JSRuntime} (ctx : Context) (input : string) (w : World) :
  ∃ key w', generateSource ctx input w = (Ret key, w').
Proof.
  unfold generateSource, bind, try_catch, lift.
  destruct (negb (String.eqb input "")); [|by eauto].
  destruct (JSON_parse input) as [msg|v]; simpl; [by eauto|].
  destruct (Object_entries v) as [msg|m]; simpl; by eauto.
Qed.

Lemma processWithRetry_commits `{JSRuntime}
    (p : Params) (w w' : World) (r : outcome unit) :
  processWithRetry p w = (r, w') →
  ∃ src own,
    fst (generateSource (context p) (matrix p) w) = Ret src
    ∧ commits_only p src own w w'
    ∧ (r = Ret tt → own ≠ []).
Proof.
  unfold processWithRetry, bind.
  destruct (generateSource_returns (context p) (matrix p) w) as (src & w0 & Hsrc).
  pose proof (generateSource_others_committed (context p) (matrix p) w) as Hothers0.
  pose proof (generateSource_same_count is_commit (context p) (matrix p)
                ltac:(done) w) as Hcount0.
  rewrite Hsrc in *. simpl in Hothers0, Hcount0.
  intros Hloop. destruct (retry_loop_commits _ _ _ _ _ _ _ Hloop) as (own & Hown & Hret).
  exists src, own. split_and!; [done| |done].
  exact (commits_only_trans p src [] own w w0 w'
           (commits_only_quiet p src w w0 Hothers0 Hcount0) Hown).
Qed.

(** X9. Whatever happens in a call of [processWithRetry], the table gains
    nothing but rows of other writers and copies of the appended message
    (the row of this pull request, commit, source key, run and attempt, with
    the message), at most one copy for every [COMMIT] that was sent.  When
    the call returns, at least one copy has been committed. *)
Theorem processWithRetry_commits_only `{JSRuntime}
    (p : Params) (w w' : World) (r : outcome unit) :
  processWithRetry p w = (r, w') →
  ∃ src own,
    fst (generateSource (context p) (matrix p) w) = Ret src
    ∧ committed own w w'
    ∧ Forall (is_appended_row p src) own
    ∧ (count is_commit (trace w) + length own ≤ count is_commit (trace w'))%nat
    ∧ (r = Ret tt → own ≠ []).
Proof.
  intros Hrun.
  destruct (processWithRetry_commits p w w' r Hrun)
    as (src & own & Hsrc & (Hcommitted & Hrows & Hcount) & Hret).
  exists src, own. by split_and!.
Qed.

Lemma processWithRetry_commits_only_witness :
  ∃ own,
    committed own (Demo.world [])
      (snd (@processWithRetry Demo.runtime Demo.params (Demo.world [])))
    ∧ Forall (is_appended_row Demo.params "ci/test") own
    ∧ own ≠ [].
Proof.
  destruct (@processWithRetry_commits_only Demo.runtime Demo.params (Demo.world [])
              (snd (@processWithRetry Demo.runtime Demo.params (Demo.world [])))
              (Ret tt))
    as (src & own & Hsrc & Hcommitted & Hrows & _ & Hret); [vm_compute; reflexivity|].
  vm_compute in Hsrc. injection Hsrc as <-.
  exists own. split; [exact Hcommitted|]. split; [exact Hrows|by apply Hret].
Defined.

(** X10. A call of [processWithRetry] during which no [COMMIT] was sent has
    committed nothing of its own.  A call that returns after exactly one
    [COMMIT] was sent has committed the appended message exactly once. *)
Theorem processWithRetry_commits_once `{JSRuntime}
    (p : Params) (w w' : World) (r : outcome unit) :
  processWithRetry p w = (r, w') →
  (count is_commit (trace w') = count is_commit (trace w) → committed [] w w')
  ∧ (r = Ret tt →
     count is_commit (trace w') = S (count is_commit (trace w)) →
     ∃ src row,
       fst (generateSource (context p) (matrix p) w) = Ret src
       ∧ is_appended_row p src row ∧ committed [row] w w').
Proof.
  intros Hrun.
  destruct (processWithRetry_commits p w w' r Hrun)
    as (src & own & Hsrc & (Hcommitted & Hrows & Hcount) & Hret).
  split.
  - intros Hnone. destruct own; [done|]. simpl in Hcount. lia.
  - intros Hr Hone. specialize (Hret Hr).
    destruct own as [|row [|row' own]].
    { by destruct Hret. }
    2: { simpl in Hcount. lia. }
    exists src, row. split; [done|]. split; [|done].
    by inversion_clear Hrows.
Qed.

(** A lock timeout at the [INSERT] and a refused reconnect: no [COMMIT]
    is sent and nothing is committed.  A run in which every call succeeds:
    one [COMMIT], one row. *)
Lemma processWithRetry_commits_once_witness :
  let w := Demo.world Demo.lock_timeout_then_refused in
  let w' := snd (@processWithRetry Demo.runtime Demo.params w) in
  let v := Demo.world [] in
  let v' := snd (@processWithRetry Demo.runtime Demo.params v) in
  committed [] w w'
  ∧ ∃ row, is_appended_row Demo.params "ci/test" row ∧ committed [row] v v'.
Proof.
  intros w w' v v'. split.
  - destruct (@processWithRetry_commits_once Demo.runtime Demo.params w w'
                (Throw reuse_error))
      as [Hnone _]; [vm_compute; reflexivity|].
    apply Hnone. vm_compute. reflexivity.
  - destruct (@processWithRetry_commits_once Demo.runtime Demo.params v v' (Ret tt))
      as [_ Honce]; [vm_compute; reflexivity|].
    destruct (Honce eq_refl) as (src & row & Hsrc & Hrow & Hcommitted);
      [vm_compute; reflexivity|].
    vm_compute in Hsrc. injection Hsrc as <-.
    exists row. split; [exact Hrow|exact Hcommitted].
Defined.

(** ** Attempts and sleeps of a call *)

Lemma session_no_sleep `{JSRuntime} (p : Params) (src : string) :
  respects (same_count is_sleep) (session p src).
Proof. unfold session, transaction, append_resolve, external_sync. by respects. Qed.

Lemma attempt_once_no_sleep `{JSRuntime} (p : Params) (src : string) :
  respects (same_count is_sleep) (attempt_once p src).
Proof.
  unfold attempt_once. apply respects_bind; [apply _| |intros _; apply session_no_sleep].
  by apply same_count_client_connect.
Qed.

(** After a failed attempt the controller either sleeps once and goes on,
    which it does not do after the last attempt, or throws without a
    sleep; it never connects. *)
Lemma on_error_sleeps (attempt : Z) (error : js_error) (w w' : World)
    (r : outcome unit) :
  on_error attempt error w = (r, w') →
  count is_connect (trace w') = count is_connect (trace w)
  ∧ (r = Ret tt ∧ attempt ≠ MAX_RETRIES
       ∧ count is_sleep (trace w') = S (count is_sleep (trace w))
     ∨ (∃ e, r = Throw e) ∧ count is_sleep (trace w') = count is_sleep (trace w)).
Proof.
  intros Herror.
  pose proof (on_error_same_count is_connect attempt error
                ltac:(done) ltac:(done) ltac:(done) w) as Hconnect.
  rewrite Herror in Hconnect. split; [done|].
  destruct (decide (transient_conflict error = true ∧ attempt ≠ MAX_RETRIES))
    as [[Htransient Hlast]|Hfatal].
  - rewrite (on_error_transient attempt error w Htransient Hlast) in Herror.
    injection Herror as <- <-. left. split_and!; [done..|].
    simpl. by rewrite !count_cons.
  - assert (transient_conflict error = false ∨ attempt = MAX_RETRIES) as Hfatal'.
    { destruct (transient_conflict error); [|by left].
      destruct (decide (attempt = MAX_RETRIES)); [by right|]. by destruct Hfatal. }
    destruct (on_error_fatal attempt error w Hfatal') as [w'' Hthrow].
    pose proof (on_error_fatal_quiet is_sleep attempt error
                  ltac:(done) ltac:(done) Hfatal' w) as Hsleep.
    rewrite Herror in Hthrow, Hsleep. injection Hthrow as -> <-.
    right. split; [by eexists|done].
Qed.

Lemma retry_loop_attempts `{JSRuntime} (p : Params) (src : string) (n : nat)
    (attempt : Z) (w : World) :
  (0 < n)%nat → attempt + Z.of_nat n = MAX_RETRIES + 1 →
  ∃ attempts : nat,
    (1 ≤ attempts ≤ n)%nat
    ∧ count is_connect (trace (snd (retry_loop p src n attempt w)))
      = (count is_connect (trace w) + attempts)%nat
    ∧ S (count is_sleep (trace (snd (retry_loop p src n attempt w))))
      = (count is_sleep (trace w) + attempts)%nat.
Proof.
  revert attempt w. induction n as [|n IH]; intros attempt w Hpos Hlast; [lia|].
  simpl. unfold try_catch.
  pose proof (attempt_once_connects p src w) as Hconnect1.
  pose proof (attempt_once_no_sleep p src w) as Hsleep1.
  destruct (attempt_once p src w) as [[[]|e] w1]; simpl in Hconnect1, Hsleep1.
  { exists 1%nat. simpl. unfold same_count in Hsleep1. lia. }
  unfold bind. destruct (on_error attempt e w1) as [r2 w2] eqn:Herror.
  destruct (on_error_sleeps _ _ _ _ _ Herror)
    as [Hconnect2 [(-> & Hmore & Hsleep2)|([e2 ->] & Hsleep2)]].
  - destruct (IH (attempt + 1) w2 ltac:(lia) ltac:(lia))
      as (attempts & Hbound & Hconnect3 & Hsleep3).
    exists (S attempts). unfold same_count in Hsleep1. split_and!; lia.
  - exists 1%nat. simpl. unfold same_count in Hsleep1. lia.
Qed.

Lemma processWithRetry_attempts `{JSRuntime} (p : Params) (w : World) :
  ∃ attempts : nat,
    (1 ≤ attempts ≤ 3)%nat
    ∧ count is_connect (trace (snd (processWithRetry p w)))
      = (count is_connect (trace w) + attempts)%nat
    ∧ S (count is_sleep (trace (snd (processWithRetry p w))))
      = (count is_sleep (trace w) + attempts)%nat.
Proof.
  unfold processWithRetry, bind.
  destruct (generateSource_returns (context p) (matrix p) w) as (src & w0 & Hsrc).
  pose proof (generateSource_same_count is_connect (context p) (matrix p)
                ltac:(done) w) as Hconnect0.
  pose proof (generateSource_same_count is_sleep (context p) (matrix p)
                ltac:(done) w) as Hsleep0.
  rewrite Hsrc in *. simpl in Hconnect0, Hsleep0. unfold same_count in *.
  destruct (retry_loop_attempts p src (Z.to_nat MAX_RETRIES) 1 w0
              ltac:(unfold MAX_RETRIES; lia) ltac:(done))
    as (attempts & Hbound & Hconnect & Hsleep).
  exists attempts. rewrite Hconnect, Hsleep, Hconnect0, Hsleep0.
  unfold MAX_RETRIES in Hbound. split_and!; [lia|lia|done|done].
Qed.

(** With a driver that refuses to connect a client again, the second
    attempt is the last. *)
Lemma processWithRetry_connects_refused `{JSRuntime} (p : Params) (w : World) :
  driver_refuses_reconnect p w →
  (count is_connect (trace (snd (processWithRetry p w)))
   ≤ count is_connect (trace w) + 2)%nat.
Proof.
  intros Hrefuses.
  destruct (generateSource_returns (context p) (matrix p) w) as (src & w0 & Hsrc).
  pose proof (generateSource_same_count is_connect (context p) (matrix p)
                ltac:(done) w) as Hconnect0.
  rewrite Hsrc in Hconnect0. unfold same_count in Hconnect0. simpl in Hconnect0.
  destruct (attempt_once p src w0) as [[[]|error] w1] eqn:Hattempt.
  - pose proof (attempt_once_connects p src w0) as Hconnect1.
    rewrite Hattempt in Hconnect1. simpl in Hconnect1.
    unfold processWithRetry, bind. rewrite Hsrc.
    change (Z.to_nat MAX_RETRIES) with 3%nat. simpl. unfold try_catch.
    rewrite Hattempt. simpl. lia.
  - destruct (transient_conflict error) eqn:Htransient.
    + destruct (processWithRetry_stops_at_reconnect p w w0 w1 src error
                  Hsrc Hattempt Htransient) as (w' & Hrun & Hcount).
      { intros w2 Herror. by eapply Hrefuses. }
      rewrite Hrun. simpl. lia.
    + destruct (processWithRetry_fatal_first_attempt p w w0 w1 src error
                  Hsrc Hattempt Htransient) as (w' & Hrun & Hcount).
      rewrite Hrun. simpl. lia.
Qed.

(** X11. A call of [processWithRetry] whose client cannot be constructed,
    or for an event without a pull request, throws before it does anything
    else: it makes no attempt.  Otherwise it makes at least one attempt and
    at most [MAX_RETRIES = 3], and it sleeps exactly once between two
    attempts: the number of sleeps is the number of attempts less one.  With
    a driver that refuses to connect a client again it makes at most two
    attempts. *)
Theorem processWithRetry_of_event_attempts `{JSRuntime}
    (new_Client : string + unit) (ec : EventContext)
    (message matrix : string) (run_attempt : Z) (w : World) :
  let run := processWithRetry_of_event new_Client ec message matrix run_attempt w in
  match new_Client, event_pull_request ec with
  | inl msg, _ => run = (Throw (new_Error msg), w)
  | inr _, None =>
      run = (Throw (new_Error "Cannot read properties of undefined (reading 'number')"), w)
  | inr _, Some (number, sha) =>
      ∃ attempts : nat,
        (1 ≤ attempts ≤ 3)%nat
        ∧ count is_connect (trace (snd run)) = (count is_connect (trace w) + attempts)%nat
        ∧ S (count is_sleep (trace (snd run))) = (count is_sleep (trace w) + attempts)%nat
        ∧ (driver_refuses_reconnect
             {| context := {| workflow := event_workflow ec; job := event_job ec;
                              pull_request_number := number;
                              pull_request_head_sha := sha;
                              runId := event_runId ec |};
                params_message := message; matrix := matrix;
                GITHUB_RUN_ATTEMPT := run_attempt |} w →
           (attempts ≤ 2)%nat)
  end.
Proof.
  unfold processWithRetry_of_event.
  destruct new_Client as [msg|[]]; [done|].
  destruct (event_pull_request ec) as [[number sha]|]; [|done].
  unfold bind at 1. cbn [lift ret]. cbv zeta.
  set (p := {| context := _ |}).
  destruct (processWithRetry_attempts p w) as (attempts & Hbound & Hconnect & Hsleep).
  exists attempts. split_and!; [lia|lia|done|done|].
  intros Hrefuses%processWithRetry_connects_refused. lia.
Qed.

(** An event without a pull request: no call is made.  A lock timeout in
    the first attempt with a driver that refuses the reconnect: two
    attempts and one sleep. *)
Lemma processWithRetry_of_event_attempts_witness :
  @processWithRetry_of_event Demo.runtime (inr tt) Samples.push_event "build ok" "" 1
    (Demo.world [])
  = (Throw (new_Error "Cannot read properties of undefined (reading 'number')"),
     Demo.world [])
  ∧ ∃ attempts : nat,
      (1 ≤ attempts ≤ 2)%nat
      ∧ count is_connect
          (trace (snd (@processWithRetry_of_event Demo.runtime (inr tt)
                         Samples.pull_request_event "build ok" "" 1
                         (Demo.world Demo.lock_timeout_then_refused))))
        = attempts.
Proof.
  split.
  - exact (@processWithRetry_of_event_attempts Demo.runtime (inr tt) Samples.push_event
             "build ok" "" 1 (Demo.world [])).
  - destruct (@processWithRetry_of_event_attempts Demo.runtime (inr tt)
                Samples.pull_request_event "build ok" "" 1
                (Demo.world Demo.lock_timeout_then_refused))
      as (attempts & Hbound & Hconnect & _ & Hrefused).
    exists attempts. split; [|exact Hconnect].
    split; [apply Hbound|]. apply Hrefused.
    intros src w0 error w1 w2 Hsrc Hattempt Herror.
    vm_compute in Hsrc. injection Hsrc as <- <-.
    vm_compute in Hattempt. injection Hattempt as <- <-.
    vm_compute in Herror. injection Herror as <-.
    reflexivity.
Defined.

(** ** What a call that returns has done *)

Lemma committed_table_subseteq (own : list Row) (w w' : World) :
  committed own w w' → table w ⊆ table w'.
Proof.
  intros (n & _ & Htable) r Hr. rewrite Htable. apply elem_of_app. by left.
Qed.

Lemma committed_own_subseteq (own : list Row) (w w' : World) :
  committed own w w' → own ⊆ table w'.
Proof.
  intros (n & _ & Htable) r Hr. rewrite Htable, !elem_of_app. by right; right.
Qed.

Lemma others_committed_table_subseteq (w w' : World) :
  others_committed w w' → table w ⊆ table w'.
Proof. intros Hothers%others_committed_committed. by eapply committed_table_subseteq. Qed.

(** A loop that returns has returned from an attempt, and no row that was
    in the table when the loop began is missing when that attempt begins. *)
Lemma retry_loop_Ret `{JSRuntime} (p : Params) (src : string) (n : nat)
    (attempt : Z) (w w' : World) :
  retry_loop p src n attempt w = (Ret tt, w') →
  ∃ wa, attempt_once p src wa = (Ret tt, w') ∧ table w ⊆ table wa.
Proof.
  revert attempt w. induction n as [|n IH]; intros attempt w; simpl; [done|].
  unfold try_catch. destruct (attempt_once p src w) as [[[]|e] w1] eqn:Hattempt.
  - intros [= <-]. by exists w.
  - unfold bind.
    pose proof (on_error_others_committed attempt e w1) as Hothers.
    destruct (on_error attempt e w1) as [[[]|e2] w2]; [|done]. simpl in Hothers.
    intros (wa & Hreturn & Htable)%IH. exists wa. split; [done|].
    destruct (attempt_once_commits _ _ _ _ _ Hattempt) as (own & [Hown _] & _).
    etrans; [by eapply committed_table_subseteq|].
    etrans; [by eapply others_committed_table_subseteq|done].
Qed.

Lemma attempt_once_Ret `{JSRuntime} (p : Params) (src : string) (w w' : World) :
  attempt_once p src w = (Ret tt, w') →
  ∃ w0 view w1 w2 rows w3 w4,
    client_connect w = (Ret tt, w0)
    ∧ append_resolve p src w0 = (Ret view, w1)
    ∧ external_sync p (render (pull_request_head_sha (context p)) view) w1 = (Ret tt, w2)
    ∧ client_query COMMIT w2 = (Ret rows, w3)
    ∧ client_end w3 = (Ret tt, w4)
    ∧ client_end w4 = (Ret tt, w').
Proof.
  unfold attempt_once. intros ([] & w0 & Hconnect & Hsession)%bind_Ret. revert Hsession.
  unfold session, try_finally, try_catch.
  destruct (transaction p src w0) as [[[]|e] w4] eqn:Htransaction.
  - destruct (client_end w4) as [[[]|e] w5] eqn:Hfinally; [|done]. intros [= <-].
    unfold transaction in Htransaction.
    apply bind_Ret in Htransaction as (view & w1 & Happend & Hrest).
    apply bind_Ret in Hrest as ([] & w2 & Hsync & Hrest).
    apply bind_Ret in Hrest as (rows & w3 & Hcommit & Hend).
    by exists w0, view, w1, w2, rows, w3, w4.
  - unfold bind, client_query, call.
    destruct (fault _); simpl; by destruct (client_end _) as [[[]|?] ?].
Qed.

Lemma client_query_comments (q : Sql) (w w' : World) (r : outcome (list Row)) :
  client_query q w = (r, w') → comments w' = comments w.
Proof.
  unfold client_query, call. destruct (fault _); [by intros [= <- <-]|].
  destruct (sql_effect q (env_step (EvQuery q) w)) as [rows w1] eqn:Heffect.
  intros [= <- <-]. destruct q; simpl in Heffect; try by injection Heffect as <- <-.
  destruct (tx w); by injection Heffect as <- <-.
Qed.

Lemma client_end_comments (w w' : World) (r : outcome unit) :
  client_end w = (r, w') → comments w' = comments w.
Proof. unfold client_end, call. destruct (fault _); by intros [= <- <-]. Qed.

(** X12. When [processWithRetry] returns, a comment of the pull request has
    as its body the document rendered from the result of the resolve query
    of the successful attempt: the latest run of every source key among the
    rows that the attempt saw.  These rows include every row that was
    committed before the call and the row that the attempt appended, with
    this producer's source key, and all of them are committed when the call
    returns. *)
Theorem processWithRetry_success_writes_document `{JSRuntime}
    (p : Params) (w w' : World) :
  processWithRetry p w = (Ret tt, w') →
  ∃ src rows row c,
    fst (generateSource (context p) (matrix p) w) = Ret src
    ∧ table w ⊆ rows
    ∧ row ∈ rows ∧ is_appended_row p src row
    ∧ rows ⊆ table w'
    ∧ c ∈ comments w'
    ∧ body c = render (pull_request_head_sha (context p))
                 (select_latest_runs (pull_request_number (context p))
                    (pull_request_head_sha (context p)) rows).
Proof.
  unfold processWithRetry. intros (src & w0 & Hsrc & Hloop)%bind_Ret.
  pose proof (generateSource_others_committed (context p) (matrix p) w) as Hothers0.
  rewrite Hsrc in Hothers0. simpl in Hothers0.
  apply retry_loop_Ret in Hloop as (wa & Hattempt & Htable_a).
  apply attempt_once_Ret in Hattempt
    as (wb & view & w1 & w2 & rows & w3 & w4
        & Hconnect & Happend & Hsync & Hcommit & Hend & Hfinally).
  pose proof (respects_call others_committed EvConnect (λ w, (tt, w))
                (others_committed_env_step EvConnect)
                ltac:(by intros; apply others_committed_same) wa) as Hothers_b.
  fold client_connect in Hothers_b. rewrite Hconnect in Hothers_b. simpl in Hothers_b.
  destruct (append_resolve_any _ _ _ _ _ Happend) as [Hothers1 Hopen].
  destruct (Hopen view eq_refl) as (row & start & Hrow & Htx1). clear Hopen.
  destruct (append_resolve_view _ _ _ _ _ Happend) as [Hview _].
  pose proof (external_sync_others_committed p
                (render (pull_request_head_sha (context p)) view) w1) as Hothers2.
  rewrite Hsync in Hothers2. simpl in Hothers2.
  pose proof (external_sync_tx _ _ _ _ _ Hsync) as Htx2. rewrite Htx1 in Htx2.
  destruct (client_query_COMMIT_commits row start _ _ _ Htx2 Hcommit)
    as [_ [[[e Heq] _]|[_ Hcommitted3]]]; [discriminate Heq|].
  pose proof (others_committed_client_end w3) as Hothers4.
  rewrite Hend in Hothers4. simpl in Hothers4.
  pose proof (others_committed_client_end w4) as Hothers5.
  rewrite Hfinally in Hothers5. simpl in Hothers5.
  assert (table w3 ⊆ table w') as Htable_end.
  { etrans; by eapply others_committed_table_subseteq. }
  assert (visible w1 = table w1 ++ [row]) as Hvisible.
  { unfold visible. by rewrite Htx1. }
  set (document := render (pull_request_head_sha (context p)) view) in *.
  assert (∃ c, c ∈ comments w2 ∧ body c = document) as (c & Hc & Hbody).
  { destruct (external_sync_inv _ _ _ _ _ Hsync) as [_ [([e [=]] & _)|[_ Hdone]]].
    destruct (List.find is_bot_comment (first_page w1)) as [c0|] eqn:Hfind.
    - destruct Hdone as [-> _].
      apply find_is_bot_comment_elem_of in Hfind as [Hc0%first_page_subseteq _].
      exists (with_body (comment_id c0) document c0). split.
      + by apply list_elem_of_fmap_2.
      + unfold with_body. by rewrite decide_True.
    - destruct Hdone as [-> _]. exists (created_comment w1 document). split; [|done].
      apply elem_of_app. right. by left. }
  exists src, (visible w1), row, c. rewrite Hsrc.
  split_and!; [done| | |done| | |].
  - rewrite Hvisible. intros r Hr. apply elem_of_app. left.
    apply (others_committed_table_subseteq _ _ Hothers1).
    apply (others_committed_table_subseteq _ _ Hothers_b).
    apply Htable_a.
    by apply (others_committed_table_subseteq _ _ Hothers0).
  - rewrite Hvisible. apply elem_of_app. right. by left.
  - rewrite Hvisible. intros r [Hr| ->%list_elem_of_singleton]%elem_of_app.
    + apply Htable_end. apply (committed_table_subseteq _ _ _ Hcommitted3).
      by apply (others_committed_table_subseteq _ _ Hothers2).
    + apply Htable_end. apply (committed_own_subseteq _ _ _ Hcommitted3). by left.
  - rewrite (client_end_comments _ _ _ Hfinally), (client_end_comments _ _ _ Hend).
    by rewrite (client_query_comments _ _ _ _ Hcommit).
  - rewrite Hbody. unfold document. by rewrite Hview.
Qed.

(** Three rows of the commit are stored; the call appends a fourth and
    writes the document of the latest runs of [ci/lint] and [ci/test]. *)
Lemma processWithRetry_success_writes_document_witness :
  let w' := snd (@processWithRetry Demo.runtime Demo.params (Demo.stored_world [])) in
  ∃ rows row c,
    Demo.stored ⊆ rows
    ∧ row ∈ rows ∧ is_appended_row Demo.params "ci/test" row
    ∧ rows ⊆ table w'
    ∧ c ∈ comments w'
    ∧ body c = @render Demo.runtime "abc123" (select_latest_runs 7 "abc123" rows).
Proof.
  intros w'.
  destruct (@processWithRetry_success_writes_document Demo.runtime Demo.params
              (Demo.stored_world []) w')
    as (src & rows & row & c & Hsrc & Hstored & Hrow & Happended & Hrows & Hc & Hbody);
    [vm_compute; reflexivity|].
  vm_compute in Hsrc. injection Hsrc as <-.
  exists rows, row, c.
  split; [exact Hstored|]. split; [exact Hrow|]. split; [exact Happended|].
  split; [exact Hrows|]. split; [exact Hc|exact Hbody].
Defined.

(** ** The session is never left open *)

Lemma transaction_ends `{JSRuntime} (p : Params) (src : string) (w : World) :
  (count is_end (trace w) ≤ count is_end (trace (snd (transaction p src w)))
   ≤ S (count is_end (trace w)))%nat.
Proof.
  unfold transaction, bind.
  pose proof (append_resolve_same_count is_end p src ltac:(done) w) as Hc1.
  destruct (append_resolve p src w) as [[view|e] w1]; simpl in *;
    unfold same_count in Hc1; [|lia].
  pose proof (external_sync_same_count is_end p
                (render (pull_request_head_sha (context p)) view)
                ltac:(done) ltac:(by intros []) w1) as Hc2.
  destruct (external_sync p _ w1) as [[[]|e] w2]; simpl in *;
    unfold same_count in Hc2; [|lia].
  pose proof (same_count_client_query is_end COMMIT ltac:(done) w2) as Hc3.
  destruct (client_query COMMIT w2) as [[rows|e] w3]; simpl in *;
    unfold same_count in Hc3; [|lia].
  pose proof (client_end_ends w3) as Hc4.
  destruct (client_end w3) as [r4 w4]; simpl in *. lia.
Qed.

(** X13. An attempt whose [connect] succeeded closes the session at least
    once and at most twice, whatever fails afterwards; an attempt whose
    [connect] failed makes no other call. *)
Theorem attempt_once_closes_session `{JSRuntime} (p : Params) (src : string) (w : World) :
  (∀ w0, client_connect w = (Ret tt, w0) →
     (S (count is_end (trace w)) ≤ count is_end (trace (snd (attempt_once p src w)))
      ≤ S (S (count is_end (trace w))))%nat)
  ∧ (∀ e w0, client_connect w = (Throw e, w0) →
       attempt_once p src w = (Throw e, w0) ∧ trace w0 = EvConnect :: trace w).
Proof.
  split.
  - intros w0 Hconnect. unfold attempt_once, bind. rewrite Hconnect.
    pose proof (same_count_client_connect is_end ltac:(done) w) as Hc0.
    rewrite Hconnect in Hc0. unfold same_count in Hc0. simpl in Hc0.
    unfold session, try_finally, try_catch.
    pose proof (transaction_ends p src w0) as Hc1.
    destruct (transaction p src w0) as [[[]|e] wt]; simpl in Hc1.
    + pose proof (client_end_ends wt) as Hc5.
      destruct (client_end wt) as [[[]|e] w5]; simpl in *; lia.
    + unfold bind.
      pose proof (same_count_client_query is_end ROLLBACK ltac:(done) wt) as Hc4.
      destruct (client_query ROLLBACK wt) as [[rows|e4] w4]; simpl in Hc4;
        unfold same_count in Hc4.
      all: pose proof (client_end_ends w4) as Hc5.
      all: unfold throw; cbv beta iota.
      all: destruct (client_end w4) as [[[]|e5] w5]; simpl in *; lia.
  - intros e w0 Hconnect. unfold attempt_once, bind. rewrite Hconnect. split; [done|].
    apply call_Throw in Hconnect as [_ ->]. done.
Qed.

Lemma attempt_once_closes_session_witness :
  (count is_end (trace (snd (@attempt_once Demo.runtime Demo.params "ci/test"
                               (Demo.world [quiet; failing (Demo.db_error "57014")]))))
   = 1)%nat
  ∧ @attempt_once Demo.runtime Demo.params "ci/test"
      (Demo.world [failing (Demo.db_error "08006")])
    = (Throw (Demo.db_error "08006"),
       env_step EvConnect (Demo.world [failing (Demo.db_error "08006")])).
Proof.
  split.
  - destruct (@attempt_once_closes_session Demo.runtime Demo.params "ci/test"
                (Demo.world [quiet; failing (Demo.db_error "57014")])) as [Hclosed _].
    specialize (Hclosed _ eq_refl). vm_compute. reflexivity.
  - destruct (@attempt_once_closes_session Demo.runtime Demo.params "ci/test"
                (Demo.world [failing (Demo.db_error "08006")])) as [_ Hfailed].
    apply (Hfailed (Demo.db_error "08006")). reflexivity.
Defined.

(** ** The entry point *)

(** X14. [run] never throws.  It ends as succeeded exactly when the three
    required inputs are supplied and [processWithRetry] returns; otherwise
    it ends as failed. *)
Theorem run_never_throws `{JSRuntime} (a : Action) (w : World) :
  ∃ status w',
    run a w = (Ret status, w')
    ∧ (status = Succeeded
       ↔ ∃ message dbUrl token matrix,
           getInput a "message" true = inr message
           ∧ getInput a "neon-db-url" true = inr dbUrl
           ∧ getInput a "github-token" true = inr token
           ∧ getInput a "matrix" false = inr matrix
           ∧ fst (processWithRetry
                    {| context := github_context a; params_message := message;
                       matrix := matrix;
                       GITHUB_RUN_ATTEMPT := env_GITHUB_RUN_ATTEMPT a |} w) = Ret tt).
Proof.
  unfold run, try_catch, bind, lift, setFailed, core_error, throw, ret.
  destruct (getInput a "message" true) as [m1|message]; simpl.
  { eexists _, _. split; [done|]. split; [done|]. by intros (? & ? & ? & ? & [=] & _). }
  destruct (getInput a "neon-db-url" true) as [m2|dbUrl]; simpl.
  { eexists _, _. split; [done|]. split; [done|]. by intros (? & ? & ? & ? & _ & [=] & _). }
  destruct (getInput a "github-token" true) as [m3|token]; simpl.
  { eexists _, _. split; [done|]. split; [done|].
    by intros (? & ? & ? & ? & _ & _ & [=] & _). }
  destruct (getInput a "matrix" false) as [m4|matrix]; simpl.
  { eexists _, _. split; [done|]. split; [done|].
    by intros (? & ? & ? & ? & _ & _ & _ & [=] & _). }
  destruct (processWithRetry _ w) as [[[]|e] w1] eqn:Hrun.
  - eexists _, _. split; [done|]. split; [|done]. intros _.
    exists message, dbUrl, token, matrix. by rewrite Hrun.
  - eexists _, _. split; [done|]. split; [done|].
    intros (? & ? & ? & ? & [= <-] & _ & _ & [= <-] & Hret).
    rewrite Hrun in Hret. done.
Qed.

(** X15. When a required input is missing, [run] fails with the message of
    the toolkit's exception as its last log line, and it has made no call to
    the store or to GitHub: only three lines were logged. *)
Theorem run_missing_input `{JSRuntime} (a : Action) (w : World) (msg : string) :
  getInput a "message" true = inl msg
  ∨ (∃ message, getInput a "message" true = inr message
                ∧ getInput a "neon-db-url" true = inl msg)
  ∨ (∃ message dbUrl, getInput a "message" true = inr message
                      ∧ getInput a "neon-db-url" true = inr dbUrl
                      ∧ getInput a "github-token" true = inl msg) →
  ∃ line,
    run a w
    = (Ret Failed,
       emit (EvError (inl msg))
         (emit (EvError line) (emit (EvError (inl "Action failed:")) w))).
Proof.
  unfold run, try_catch, bind, lift, setFailed, core_error, throw, ret.
  intros [Hmessage|[(message & Hmessage & Hurl)|(message & dbUrl & Hmessage & Hurl & Htoken)]].
  - rewrite Hmessage. by eexists.
  - rewrite Hmessage, Hurl. by eexists.
  - rewrite Hmessage, Hurl, Htoken. by eexists.
Qed.

Lemma run_missing_input_witness :
  ∃ line,
    @run Demo.runtime Samples.action_without_message (Demo.world [])
    = (Ret Failed,
       emit (EvError (inl "Input required and not supplied: message"))
         (emit (EvError line) (emit (EvError (inl "Action failed:")) (Demo.world [])))).
Proof.
  apply (@run_missing_input Demo.runtime Samples.action_without_message (Demo.world [])).
  left. reflexivity.
Defined.

Example run_example :
  fst (@run Demo.runtime Samples.action (Demo.world [])) = Ret Succeeded
  ∧ fst (@run Demo.runtime Samples.action
           (Demo.world [quiet; quiet; failing (Demo.db_error "23505")])) = Ret Failed.
Proof. by vm_compute. Qed.

(** X16. [run] of [index.js] never throws either, and ends as succeeded
    exactly when the three required inputs are supplied and its
    [processWithRetry] returns. *)
Theorem legacy_run_never_throws (sql_transaction : M unit) (a : Action) (w : World) :
  ∃ status w',
    legacy_run sql_transaction a w = (Ret status, w')
    ∧ (status = Succeeded
       ↔ (∃ message dbUrl token,
            getInput a "message" true = inr message
            ∧ getInput a "neon-db-url" true = inr dbUrl
            ∧ getInput a "github-token" true = inr token)
         ∧ fst (Legacy.processWithRetry sql_transaction 1 w) = Ret tt).
Proof.
  unfold legacy_run, try_catch, bind, lift, setFailed, core_error, throw, ret.
  destruct (getInput a "message" true) as [m1|message]; simpl.
  { eexists _, _. split; [done|]. split; [done|]. by intros [(? & ? & ? & [=] & _) _]. }
  destruct (getInput a "neon-db-url" true) as [m2|dbUrl]; simpl.
  { eexists _, _. split; [done|]. split; [done|].
    by intros [(? & ? & ? & _ & [=] & _) _]. }
  destruct (getInput a "github-token" true) as [m3|token]; simpl.
  { eexists _, _. split; [done|]. split; [done|].
    by intros [(? & ? & ? & _ & _ & [=]) _]. }
  destruct (Legacy.processWithRetry sql_transaction 1 w) as [[[]|e] w1] eqn:Hrun.
  - eexists _, _. split; [done|]. split; [|done]. intros _. split; [|done].
    by exists message, dbUrl, token.
  - eexists _, _. split; [done|]. split; [done|]. by intros [_ [=]].
Qed.

(** X17. The controller of [index.js] retries after every error, whatever
    its code, as long as [attempt < MAX_RETRIES]: it sleeps
    [RETRY_DELAY * attempt] and calls itself with [attempt + 1]. *)
Theorem legacy_retries_after_every_error (sql_transaction : M unit)
    (attempt : Z) (error : js_error) (w w1 : World) :
  sql_transaction w = (Throw error, w1) →
  attempt < MAX_RETRIES →
  ∃ w2,
    Legacy.processWithRetry sql_transaction attempt w
      = Legacy.processWithRetry sql_transaction (attempt + 1) w2
    ∧ hd_error (trace w2) = Some (EvSleep (RETRY_DELAY * attempt))
    ∧ count is_sleep (trace w2) = S (count is_sleep (trace w1))
    ∧ now w2 = now w1 + RETRY_DELAY * attempt.
Proof.
  intros Hfail Hattempt. unfold Legacy.processWithRetry.
  replace (Z.to_nat (MAX_RETRIES - attempt))
    with (S (Z.to_nat (MAX_RETRIES - (attempt + 1)))) by lia.
  simpl. unfold try_catch at 1. rewrite Hfail. unfold bind at 1.
  destruct (Legacy.code_is error "55P03");
    [|destruct (Legacy.code_is error "40P01");
      [|destruct (Legacy.code_is error "57014")]]; simpl.
  all: eexists; split; [reflexivity|]; simpl; rewrite !count_cons; simpl.
  all: split_and!; [done|done|lia].
Qed.

(** A unique violation is retried as well. *)
Lemma legacy_retries_after_every_error_witness :
  ∃ w2,
    Legacy.processWithRetry (throw (Demo.db_error "23505")) 1 (Demo.world [])
      = Legacy.processWithRetry (throw (Demo.db_error "23505")) 2 w2
    ∧ hd_error (trace w2) = Some (EvSleep 1000).
Proof.
  destruct (legacy_retries_after_every_error (throw (Demo.db_error "23505")) 1
              (Demo.db_error "23505") (Demo.world []) (Demo.world []))
    as (w2 & Hretry & Hsleep & _); [reflexivity|reflexivity|].
  exists w2. split; [exact Hretry|exact Hsleep].
Defined.
